(** * Zyph / headD.py: head-pose and gaze-oscillation monitor

    A shallow embedding of the live part of [src/headD.py] (lines 136-285;
    lines 1-134 are a commented-out legacy variant).  The script is one
    [while True] loop over camera frames.  Per frame it resets two flags,
    asks the face-mesh model for landmark sets, solves a pose for every
    face, thresholds the yaw of the face processed last and, under that
    threshold only, pushes one gaze sample into the module-level list
    [gaze_sequence] and looks for a left-right oscillation in it.

    Numbers.  Python [int] is [Z].  Python [float] is modelled by [Q]:
    every finite double is a rational and the comparisons the script
    makes ([>], [<] against the integers 10, 6 and -6) are exact on
    doubles.  The float operations the script itself performs are
    [l.x * w], [(a + b) / 2] on integers and [w / 2]; on pixel-sized
    operands they are exact in binary64, so the rational value is the
    double the interpreter computes.  NaN and the infinities are outside
    the model.

    OpenCV ([cv2.solvePnP], [cv2.Rodrigues], [cv2.RQDecomp3x3]) is not
    code of this repository: the three calls are Section variables.  Each
    of them either returns or raises [cv2.error], which the script does
    not catch. *)

From Stdlib Require Import String DecimalString.
From Stdlib Require Import ZArith QArith Qabs List Bool Lia Lqa Permutation.
Import ListNotations.

Local Open Scope Z_scope.

(** ** Python data and exceptions *)

Inductive exn : Type :=
| IndexError   (* list index out of range *)
| NameError    (* name is not defined *)
| ValueError   (* max()/min() of an empty sequence *)
| cv2_error.   (* raised inside an OpenCV call *)

Inductive result (A : Type) : Type :=
| Ok (a : A)
| Raise (e : exn).

Arguments Ok {A} a.
Arguments Raise {A} e.

Definition bind {A B : Type} (c : result A) (k : A -> result B) : result B :=
  match c with
  | Ok a => k a
  | Raise e => Raise e
  end.

Notation "x <- c ;; k" := (bind c (fun x => k))
  (at level 61, c at next level, right associativity).

(** An OpenCV call: [Some] is the value returned, [None] says the call
    raised [cv2.error]. *)
Definition cv {A : Type} (call : option A) : result A :=
  match call with
  | Some a => Ok a
  | None => Raise cv2_error
  end.

(** [len(l)] *)
Definition len {A : Type} (l : list A) : Z := Z.of_nat (length l).

(** [l[i]] for a literal, non-negative index. *)
Definition getitem {A : Type} (l : list A) (i : nat) : result A :=
  match nth_error l i with
  | Some a => Ok a
  | None => Raise IndexError
  end.

(** [int(x)] on a float: truncation toward zero. *)
Definition py_int (x : Q) : Z := Z.quot (Qnum x) (Zpos (Qden x)).

(** [a < b] on floats. *)
Definition Qltb (a b : Q) : bool := negb (Qle_bool b a).

(** [max(l)]: the first item is the candidate, a later item replaces it
    only when it is strictly greater. *)
Definition py_max (l : list Q) : result Q :=
  match l with
  | [] => Raise ValueError
  | x :: xs => Ok (fold_left (fun m item => if Qltb m item then item else m) xs x)
  end.

(** [min(l)]: as [max] with the comparison reversed. *)
Definition py_min (l : list Q) : result Q :=
  match l with
  | [] => Raise ValueError
  | x :: xs => Ok (fold_left (fun m item => if Qltb item m then item else m) xs x)
  end.

(** A numpy array of doubles, as nested rows. *)
Definition ndarray : Type := list (list Q).

(** ** PARAMETERS (lines 147-151) *)

Definition HEAD_MIN : Z := 85.
Definition HEAD_MAX : Z := 95.
Definition GAZE_THRESHOLD : Z := 6.
Definition SEQUENCE_LENGTH : Z := 6.

(** ** Landmarks *)

(** One entry of [face.landmark]: normalised image coordinates. *)
Record NormalizedLandmark : Type := { lm_x : Q; lm_y : Q }.

(** One element of [results.multi_face_landmarks]. *)
Definition Face : Type := list NormalizedLandmark.

(** A pixel-space point [(int, int)]. *)
Definition Point : Type := (Z * Z)%type.

(** Line 170: [[(int(l.x * w), int(l.y * h)) for l in face.landmark]]. *)
Definition to_pixels (w h : Z) (face : Face) : list Point :=
  map (fun l => (py_int (lm_x l * inject_Z w), py_int (lm_y l * inject_Z h))) face.

(** ** Camera model (lines 193-202) *)

Definition focal_length (w : Z) : Z := w.

Definition center (w h : Z) : Q * Q := (inject_Z w / 2, inject_Z h / 2)%Q.

Definition camera_matrix (w h : Z) : ndarray :=
  [ [ inject_Z (focal_length w); 0%Q; fst (center w h) ];
    [ 0%Q; inject_Z (focal_length w); snd (center w h) ];
    [ 0%Q; 0%Q; 1%Q ] ].

(** [np.zeros((4, 1))] *)
Definition dist_coeffs : ndarray := repeat [0%Q] 4.

(** Lines 184-191. *)
Definition model_points : ndarray :=
  [ [ 0; 0; 0 ];
    [ 0; -330; -65 ];
    [ -225; 170; -135 ];
    [ 225; 170; -135 ];
    [ -150; -150; -125 ];
    [ 150; -150; -125 ] ]%Q.

Definition as_double (p : Point) : list Q := [ inject_Z (fst p); inject_Z (snd p) ].

(** Lines 175-182. *)
Definition image_points (landmarks : list Point) : result ndarray :=
  nose <- getitem landmarks 1 ;;
  chin <- getitem landmarks 152 ;;
  left_eye <- getitem landmarks 33 ;;
  right_eye <- getitem landmarks 263 ;;
  left_mouth <- getitem landmarks 61 ;;
  right_mouth <- getitem landmarks 291 ;;
  Ok (map as_double [nose; chin; left_eye; right_eye; left_mouth; right_mouth]).

(** ** Gaze sample (lines 221-248) *)

(** [int((a + b) / 2)] on two integers. *)
Definition midpoint (a b : Z) : Z := py_int (inject_Z (a + b) / 2)%Q.

Definition eye_center (eye_left eye_right : Point) : Point :=
  (midpoint (fst eye_left) (fst eye_right), midpoint (snd eye_left) (snd eye_right)).

Definition avg_offset (landmarks : list Point) : result Q :=
  left_iris <- getitem landmarks 468 ;;
  right_iris <- getitem landmarks 473 ;;
  left_eye_left <- getitem landmarks 33 ;;
  left_eye_right <- getitem landmarks 133 ;;
  right_eye_left <- getitem landmarks 362 ;;
  right_eye_right <- getitem landmarks 263 ;;
  let left_eye_center := eye_center left_eye_left left_eye_right in
  let right_eye_center := eye_center right_eye_left right_eye_right in
  let left_offset := fst left_iris - fst left_eye_center in
  let right_offset := fst right_iris - fst right_eye_center in
  Ok (inject_Z (left_offset + right_offset) / 2)%Q.

(** ** Gaze window (lines 250-259) *)

(** Lines 251-254: [append], then [pop(0)] when the list has grown past
    [SEQUENCE_LENGTH].  The list is non-empty after the append, so
    [pop(0)] cannot raise and is [tl]. *)
Definition store_sequence (gaze_sequence : list Q) (sample : Q) : list Q :=
  let appended := gaze_sequence ++ [sample] in
  if len appended >? SEQUENCE_LENGTH then tl appended else appended.

(** Lines 257-259, entered with [gaze_abnormal = 0] from line 166. *)
Definition detect_oscillation (gaze_sequence : list Q) : result Z :=
  if len gaze_sequence =? SEQUENCE_LENGTH then
    hi <- py_max gaze_sequence ;;
    if Qltb (inject_Z GAZE_THRESHOLD) hi then
      lo <- py_min gaze_sequence ;;
      if Qltb lo (inject_Z (- GAZE_THRESHOLD)) then Ok 1 else Ok 0
    else Ok 0
  else Ok 0.

(** ** Head threshold (line 215) *)

Definition head_test (head_angle : Q) : bool := Qltb 10 (Qabs head_angle).

(** The flag line 165 and line 216 leave behind for a given yaw. *)
Definition head_flag (head_angle : Q) : Z := if head_test head_angle then 1 else 0.

(** ** Interpreter state *)

(** The names the face loop binds; they are module globals and survive
    from one frame to the next. *)
Record LoopVars : Type := {
  landmarks : list Point;
  success : bool;
  pitch : Q;
  yaw : Q;
  roll : Q
}.

Record Globals : Type := {
  gaze_sequence : list Q;
  loop_vars : option LoopVars   (* [None]: the names are still unbound *)
}.

(** Line 153 and the state before the first frame. *)
Definition initial : Globals := {| gaze_sequence := []; loop_vars := None |}.

(** What one frame leaves in the two flags, and the line it printed
    (lines 276-277), if any. *)
Record Flags : Type := {
  head_abnormal : Z;
  gaze_abnormal : Z;
  printed : option (Z * Z)
}.

(** A frame as the loop sees it: [frame.shape] and the face-mesh answer
    ([None] when the model found no face). *)
Record Frame : Type := {
  frame_h : Z;
  frame_w : Z;
  multi_face_landmarks : option (list Face)
}.

(** Lines 165-166: both flags reset, nothing printed. *)
Definition no_signal : Flags :=
  {| head_abnormal := 0; gaze_abnormal := 0; printed := None |}.

(** Truth value of [results.multi_face_landmarks]. *)
Definition truthy {A : Type} (o : option (list A)) : bool :=
  match o with
  | Some (_ :: _) => true
  | _ => false
  end.

Definition faces_of {A : Type} (o : option (list A)) : list A :=
  match o with
  | Some l => l
  | None => []
  end.

Section WithOpenCV.

(** [cv2.solvePnP(model_points, image_points, camera_matrix, dist_coeffs)]
    returns [(success, rotation_vector, translation_vector)] or raises. *)
Variable solvePnP :
  ndarray -> ndarray -> ndarray -> ndarray -> option (bool * ndarray * ndarray).
(** First component of [cv2.Rodrigues(rotation_vector)], or raises. *)
Variable Rodrigues : ndarray -> option ndarray.
(** First component of [cv2.RQDecomp3x3(rmat)]: three Euler angles, or
    raises. *)
Variable RQDecomp3x3 : ndarray -> option (Q * Q * Q).

(** Body of the [for face in ...] loop, lines 170-212. *)
Definition face_body (w h : Z) (face : Face) : result LoopVars :=
  let landmarks := to_pixels w h face in
  pts <- image_points landmarks ;;
  solved <- cv (solvePnP model_points pts (camera_matrix w h) dist_coeffs) ;;
  let '(success, rotation_vector, translation_vector) := solved in
  rmat <- cv (Rodrigues rotation_vector) ;;
  angles <- cv (RQDecomp3x3 rmat) ;;
  let '(a0, a1, a2) := angles in
  Ok {| landmarks := landmarks; success := success;
        pitch := a0; yaw := a1; roll := a2 |}.

(** What lines 204-212 bind for given image points: the success flag and
    the three angles, or the error of the first call that raises. *)
Definition solved_pose (image camera : ndarray) : result (bool * (Q * Q * Q)) :=
  solved <- cv (solvePnP model_points image camera dist_coeffs) ;;
  rmat <- cv (Rodrigues (snd (fst solved))) ;;
  angles <- cv (RQDecomp3x3 rmat) ;;
  Ok (fst (fst solved), angles).

(** The angle lines 204-211 bind to [yaw] for given image points. *)
Definition solved_yaw (image camera : ndarray) : result Q :=
  pose <- solved_pose image camera ;;
  Ok (snd (fst (snd pose))).

(** The loop of line 169: every iteration rebinds the same names. *)
Fixpoint face_loop (w h : Z) (faces : list Face) (vars : option LoopVars)
  : result (option LoopVars) :=
  match faces with
  | [] => Ok vars
  | face :: rest =>
      v <- face_body w h face ;;
      face_loop w h rest (Some v)
  end.

(** Lines 214-277, at the indentation of the [for]: they run once, after
    the loop, on whatever the names hold. *)
Definition after_loop (gaze_sequence : list Q) (vars : option LoopVars)
  : result (Flags * list Q) :=
  v <- match vars with Some v => Ok v | None => Raise NameError end ;;
  let head_angle := yaw v in
  if head_test head_angle then
    sample <- avg_offset (landmarks v) ;;
    let gaze_sequence := store_sequence gaze_sequence sample in
    gaze_abnormal <- detect_oscillation gaze_sequence ;;
    Ok ({| head_abnormal := 1; gaze_abnormal := gaze_abnormal;
           printed := Some (1, gaze_abnormal) |}, gaze_sequence)
  else
    Ok (no_signal, gaze_sequence).

(** One pass through the [while] body, lines 161-277. *)
Definition frame_step (g : Globals) (f : Frame) : result (Flags * Globals) :=
  let h := frame_h f in
  let w := frame_w f in
  if truthy (multi_face_landmarks f) then
    vars <- face_loop w h (faces_of (multi_face_landmarks f)) (loop_vars g) ;;
    r <- after_loop (gaze_sequence g) vars ;;
    Ok (fst r, {| gaze_sequence := snd r; loop_vars := vars |})
  else
    Ok (no_signal, g).

(** The frames of a session, in order; the flags of every frame. *)
Fixpoint run (g : Globals) (frames : list Frame) : result (list Flags * Globals) :=
  match frames with
  | [] => Ok ([], g)
  | f :: rest =>
      r <- frame_step g f ;;
      rs <- run (snd r) rest ;;
      Ok (fst r :: fst rs, snd rs)
  end.

(** The three ways a frame can end without an exception, as a
    relation between the state before, the frame, the flags and the
    state after. *)
Inductive frame_outcome (g : Globals) (f : Frame) : Flags -> Globals -> Prop :=
| no_face_seen :
    truthy (multi_face_landmarks f) = false ->
    frame_outcome g f no_signal g
| head_steady (v : LoopVars) :
    truthy (multi_face_landmarks f) = true ->
    face_loop (frame_w f) (frame_h f) (faces_of (multi_face_landmarks f))
              (loop_vars g) = Ok (Some v) ->
    head_test (yaw v) = false ->
    frame_outcome g f no_signal
      {| gaze_sequence := gaze_sequence g; loop_vars := Some v |}
| head_turned (v : LoopVars) (sample : Q) (flag : Z) :
    truthy (multi_face_landmarks f) = true ->
    face_loop (frame_w f) (frame_h f) (faces_of (multi_face_landmarks f))
              (loop_vars g) = Ok (Some v) ->
    head_test (yaw v) = true ->
    avg_offset (landmarks v) = Ok sample ->
    detect_oscillation (store_sequence (gaze_sequence g) sample) = Ok flag ->
    frame_outcome g f
      {| head_abnormal := 1; gaze_abnormal := flag; printed := Some (1, flag) |}
      {| gaze_sequence := store_sequence (gaze_sequence g) sample;
         loop_vars := Some v |}.

End WithOpenCV.

(** ** Projections used to compare runs *)

(** What a frame shows to the outside: its flags and the gaze window it
    leaves.  The rebinding of the loop names is not part of it. *)
Definition observe (r : result (Flags * Globals)) : result (Flags * list Q) :=
  x <- r ;; Ok (fst x, gaze_sequence (snd x)).

Definition head_of (r : result (Flags * Globals)) : result Z :=
  x <- r ;; Ok (head_abnormal (fst x)).

(** Two bindings of the loop names that the lines after the loop cannot
    tell apart: those lines read [landmarks] and [yaw] only. *)
Definition same_reading (v1 v2 : LoopVars) : Prop :=
  landmarks v1 = landmarks v2 /\ yaw v1 = yaw v2.

Definition result_rel {A : Type} (R : A -> A -> Prop) (r1 r2 : result A) : Prop :=
  match r1, r2 with
  | Ok a1, Ok a2 => R a1 a2
  | Raise e1, Raise e2 => e1 = e2
  | _, _ => False
  end.

Definition option_rel {A : Type} (R : A -> A -> Prop) (o1 o2 : option A) : Prop :=
  match o1, o2 with
  | Some a1, Some a2 => R a1 a2
  | None, None => True
  | _, _ => False
  end.

(** A session state in which five samples have been stored. *)
Definition five_samples : Globals :=
  {| gaze_sequence := [8; -8; 8; -8; 8]%Q; loop_vars := None |}.

(** Frames built from a face list. *)
Definition frame_of (h w : Z) (faces : list Face) : Frame :=
  {| frame_h := h; frame_w := w; multi_face_landmarks := Some faces |}.

(** Every index the script reads exists: 291 is the largest one read in
    the loop, 473 the largest one read after it. *)
Definition pose_ready (face : Face) : Prop := (292 <= length face)%nat.
Definition gaze_ready (face : Face) : Prop := (474 <= length face)%nat.

(** ** A stand-in for OpenCV, to run the loop on concrete frames

    The stand-in solver hands the image points back as its rotation
    vector, with the success flag it is told to report; the stand-in
    decomposition reads the yaw off the nose abscissa, in degrees from the
    column 320. *)

Definition toy_solvePnP (ok : bool) (model image camera dist : ndarray)
  : option (bool * ndarray * ndarray) := Some (ok, image, []).

Definition toy_Rodrigues (rotation_vector : ndarray) : option ndarray :=
  Some rotation_vector.

Definition toy_angles (rmat : ndarray) : Q * Q * Q :=
  match rmat with
  | (x :: _) :: _ => (0, x - 320, 0)%Q
  | _ => (0, 0, 0)%Q
  end.

Definition toy_RQDecomp3x3 (rmat : ndarray) : option (Q * Q * Q) :=
  Some (toy_angles rmat).

(** The same yaw with another pitch and roll. *)
Definition toy_RQDecomp3x3_tilted (rmat : ndarray) : option (Q * Q * Q) :=
  Some (30, snd (fst (toy_angles rmat)), -45)%Q.

(** Third component of the cross product of q - p and r - p, for three
    image points given as rows. *)
Definition cross (p q r : list Q) : Q :=
  match p, q, r with
  | [px; py], [qx; qy], [rx; ry] => ((qx - px) * (ry - py) - (qy - py) * (rx - px))%Q
  | _, _, _ => 0%Q
  end.

(** Degenerate image points: every point lies on the line through the
    first two (or the first two coincide). *)
Definition collinear (image : ndarray) : bool :=
  match image with
  | p :: q :: rest => forallb (fun r => Qeq_bool (cross p q r) 0) rest
  | _ => true
  end.

(** A stand-in solver that raises on degenerate image points and answers
    like the stand-in above on the others. *)
Definition strict_solvePnP (model image camera dist : ndarray)
  : option (bool * ndarray * ndarray) :=
  if collinear image then None else Some (true, image, []).

(** A landmark that lands on pixel [(x, y)] of a 640 x 480 frame. *)
Definition at_pixel (x y : Z) : NormalizedLandmark :=
  {| lm_x := Qmake x 640; lm_y := Qmake y 480 |}.

(** 478 landmarks, all on the pixel (320, 240) except the nose (index 1),
    shifted right by [turn], and the two iris centres (468 and 473),
    shifted right by [left] and [right]. *)
Definition toy_face (turn left right : Z) : Face :=
  map (fun i =>
         if Nat.eqb i 1 then at_pixel (320 + turn) 240
         else if Nat.eqb i 468 then at_pixel (320 + left) 240
         else if Nat.eqb i 473 then at_pixel (320 + right) 240
         else at_pixel 320 240)
      (seq 0 478).

(** The first 300 landmarks of such a face: enough for the pose indices,
    too few for the iris indices. *)
Definition short_face (turn : Z) : Face := firstn 300 (toy_face turn 0 0).

Definition toy_frame (faces : option (list Face)) : Frame :=
  {| frame_h := 480; frame_w := 640; multi_face_landmarks := faces |}.

(** A frame with one face turned by 25 degrees whose irises sit [offset]
    pixels off the eye centres. *)
Definition turned (offset : Z) : Frame := toy_frame (Some [toy_face 25 offset offset]).

(** A frame with one face looking straight at the camera. *)
Definition straight (offset : Z) : Frame := toy_frame (Some [toy_face 0 offset offset]).

Definition no_face : Frame := toy_frame None.

(** A session in which the six samples of the final window come from
    frames separated by a frame without a face and a frame with a
    straight head. *)
Definition interrupted_session : list Frame :=
  [ turned 8; turned (-8); no_face; turned 8; straight 100; turned (-8);
    no_face; no_face; turned 8; turned (-8) ].

(** A face like [toy_face] with the chin (index 152) moved down to the
    row 400, so that its six image points are not on one line. *)
Definition spread_face (turn left right : Z) : Face :=
  map (fun i =>
         if Nat.eqb i 1 then at_pixel (320 + turn) 240
         else if Nat.eqb i 152 then at_pixel 320 400
         else if Nat.eqb i 468 then at_pixel (320 + left) 240
         else if Nat.eqb i 473 then at_pixel (320 + right) 240
         else at_pixel 320 240)
      (seq 0 478).

(** ** The reading of a degenerate solve that the design document asks for

    On degenerate image points of the face that is classified, the frame
    either signals the failure or ends without pose information: both
    flags 0 and no gaze sample stored.  It does not classify an angle. *)
Definition skips_degenerate_solve : Prop :=
  forall (solvePnP : ndarray -> ndarray -> ndarray -> ndarray ->
                     option (bool * ndarray * ndarray))
         (Rodrigues : ndarray -> option ndarray)
         (RQDecomp3x3 : ndarray -> option (Q * Q * Q))
         (g : Globals) (h w : Z) (face : Face) (image : ndarray),
    image_points (to_pixels w h face) = Ok image ->
    collinear image = true ->
    (exists e, frame_step solvePnP Rodrigues RQDecomp3x3 g (frame_of h w [face]) = Raise e) \/
    (exists g', frame_step solvePnP Rodrigues RQDecomp3x3 g (frame_of h w [face]) =
                Ok (no_signal, g') /\
                gaze_sequence g' = gaze_sequence g).

(** ** The overlay (lines 240-242 and 264-274)

    The drawing calls, as the commands they send to OpenCV. *)

Definition BGR : Type := (Z * Z * Z)%type.

Inductive Font : Type := FONT_HERSHEY_SIMPLEX.

Inductive DrawCmd : Type :=
| circle (center : Point) (radius : Z) (color : BGR) (thickness : Z)
| putText (text : string) (org : Point) (font : Font) (fontScale : Q)
          (color : BGR) (thickness : Z).

(** [str(n)] on an integer, as an f-string renders it. *)
Definition str (n : Z) : string := NilZero.string_of_int (Z.to_int n).

(** [(0,0,255) if flag else (0,255,0)] *)
Definition flag_color (flag : Z) : BGR := if flag =? 0 then (0, 255, 0) else (0, 0, 255).

(** The commands of lines 241-242 and 264-274, in the order issued.  They
    sit in the body of the head test, with [head_abnormal] just set. *)
Definition overlay (gaze_sequence : list Q) (vars : option LoopVars)
  : result (list DrawCmd) :=
  v <- match vars with Some v => Ok v | None => Raise NameError end ;;
  let head_angle := yaw v in
  if head_test head_angle then
    let head_abnormal := 1 in
    left_iris <- getitem (landmarks v) 468 ;;
    right_iris <- getitem (landmarks v) 473 ;;
    sample <- avg_offset (landmarks v) ;;
    gaze_abnormal <- detect_oscillation (store_sequence gaze_sequence sample) ;;
    Ok [ circle left_iris 4 (0, 255, 0) (-1);
         circle right_iris 4 (0, 255, 0) (-1);
         putText ("Head Angle: " ++ str (py_int head_angle)) (30, 40)
                 FONT_HERSHEY_SIMPLEX (7 # 10) (255, 255, 0) 2;
         putText ("Head Abnormal: " ++ str head_abnormal) (30, 80)
                 FONT_HERSHEY_SIMPLEX (7 # 10) (flag_color head_abnormal) 2;
         putText ("Gaze Abnormal: " ++ str gaze_abnormal) (30, 120)
                 FONT_HERSHEY_SIMPLEX (7 # 10) (flag_color gaze_abnormal) 2 ]
  else Ok [].

(** ** The capture loop (lines 156-159 and 279-282) *)

(** One turn of the [while]: what [cap.read()] returns and the code
    [cv2.waitKey(1)] returns at the end of the turn (-1 without a key). *)
Record Tick : Type := {
  ret : bool;
  frame : Frame;
  key : Z
}.

(** [cv2.waitKey(1) & 0xFF == 27] *)
Definition escape_pressed (key : Z) : bool := Z.land key 255 =? 27.

(** The ticks whose frame the loop processes: up to the first failed
    read, excluded, or the first escape key, included. *)
Fixpoint processed (ticks : list Tick) : list Tick :=
  match ticks with
  | [] => []
  | t :: rest =>
      if negb (ret t) then []
      else if escape_pressed (key t) then [t]
      else t :: processed rest
  end.

Section CaptureLoop.

Variable solvePnP :
  ndarray -> ndarray -> ndarray -> ndarray -> option (bool * ndarray * ndarray).
Variable Rodrigues : ndarray -> option ndarray.
Variable RQDecomp3x3 : ndarray -> option (Q * Q * Q).

(** The gaze samples a frame stores, none or one: the sample of the face
    processed last, when its yaw passes the head test. *)
Definition frame_samples (f : Frame) : list Q :=
  if truthy (multi_face_landmarks f) then
    match face_loop solvePnP Rodrigues RQDecomp3x3 (frame_w f) (frame_h f)
            (faces_of (multi_face_landmarks f)) None with
    | Ok (Some v) =>
        if head_test (yaw v) then
          match avg_offset (landmarks v) with
          | Ok sample => [sample]
          | Raise _ => []
          end
        else []
    | _ => []
    end
  else [].

(** The samples a run of frames stores, in the order of the frames. *)
Definition session_samples (frames : list Frame) : list Q :=
  flat_map frame_samples frames.

(** What a frame draws before [cv2.imshow]. *)
Definition frame_overlay (g : Globals) (f : Frame) : result (list DrawCmd) :=
  if truthy (multi_face_landmarks f) then
    vars <- face_loop solvePnP Rodrigues RQDecomp3x3 (frame_w f) (frame_h f)
              (faces_of (multi_face_landmarks f)) (loop_vars g) ;;
    overlay (gaze_sequence g) vars
  else Ok [].

(** The [while True] loop on a finite supply of ticks; the supply running
    out ends the model, not the script. *)
Fixpoint main_loop (g : Globals) (ticks : list Tick) : result (list Flags * Globals) :=
  match ticks with
  | [] => Ok ([], g)
  | t :: rest =>
      if negb (ret t) then Ok ([], g)
      else
        r <- frame_step solvePnP Rodrigues RQDecomp3x3 g (frame t) ;;
        if escape_pressed (key t) then Ok ([fst r], snd r)
        else
          rs <- main_loop (snd r) rest ;;
          Ok (fst r :: fst rs, snd rs)
  end.

End CaptureLoop.

(** ** Vocabulary of the further properties *)

(** A normalised landmark inside the image. *)
Definition in_unit_square (l : NormalizedLandmark) : Prop :=
  (0 <= lm_x l <= 1)%Q /\ (0 <= lm_y l <= 1)%Q.

Definition in_frame (w h : Z) (p : Point) : Prop :=
  0 <= fst p <= w /\ 0 <= snd p <= h.

(** The gaze sample written out on the six abscissas it reads. *)
Definition offset_formula (iris_l corner33 corner133 iris_r corner362 corner263 : Z) : Q :=
  (inject_Z ((iris_l - Z.quot (corner33 + corner133) 2) +
             (iris_r - Z.quot (corner362 + corner263) 2)) / 2)%Q.

(** The gaze sample read off the list of abscissas alone. *)
Definition offset_of_abscissas (xs : list Z) : result Q :=
  iris_l <- getitem xs 468 ;;
  iris_r <- getitem xs 473 ;;
  corner33 <- getitem xs 33 ;;
  corner133 <- getitem xs 133 ;;
  corner362 <- getitem xs 362 ;;
  corner263 <- getitem xs 263 ;;
  Ok (offset_formula iris_l corner33 corner133 iris_r corner362 corner263).

(** The landmarks moved [dx] pixels to the right. *)
Definition shift_right (dx : Z) (landmarks : list Point) : list Point :=
  map (fun p => (fst p + dx, snd p)) landmarks.

(** Number of frames of a session that ended with [head_abnormal] = 1. *)
Definition head_frames (flags : list Flags) : nat :=
  length (filter (fun fl => head_abnormal fl =? 1) flags).

(** Ticks for a concrete capture: two turned heads, escape on the third
    frame, and a frame the loop never reaches. *)
Definition capture : list Tick :=
  [ {| ret := true; frame := turned 8; key := -1 |};
    {| ret := true; frame := turned (-8); key := 97 |};
    {| ret := true; frame := straight 0; key := 27 + 256 |};
    {| ret := true; frame := turned 8; key := -1 |} ].

(** * Properties *)

(** ** Comparisons and extrema *)

Lemma Qltb_lt (a b : Q) : Qltb a b = true <-> (a < b)%Q.
Proof.
  unfold Qltb. rewrite negb_true_iff, <- not_true_iff_false, Qle_bool_iff.
  split; [apply Qnot_le_lt | apply Qlt_not_le].
Qed.

Lemma Qltb_ge (a b : Q) : Qltb a b = false <-> (b <= a)%Q.
Proof.
  unfold Qltb. rewrite negb_false_iff. apply Qle_bool_iff.
Qed.

Lemma len_app {A : Type} (l1 l2 : list A) : len (l1 ++ l2) = len l1 + len l2.
Proof. unfold len. rewrite length_app. lia. Qed.

Lemma len_tl {A : Type} (l : list A) : l <> [] -> len (tl l) = len l - 1.
Proof. destruct l as [|a l]; [congruence|]. intros _. unfold len. cbn [tl length]. lia. Qed.

(** The running maximum of [max] is an item of the list and bounds every
    item from above. *)
Lemma running_max_spec (xs : list Q) : forall x : Q,
  let m := fold_left (fun m item => if Qltb m item then item else m) xs x in
  In m (x :: xs) /\ forall y, In y (x :: xs) -> (y <= m)%Q.
Proof.
  induction xs as [|a xs IH]; intros x; cbn [fold_left].
  - split; [now left|]. intros y [<-|[]]. apply Qle_refl.
  - destruct (IH (if Qltb x a then a else x)) as [Hin Hub].
    destruct (Qltb x a) eqn:E.
    + apply Qltb_lt in E. split.
      * destruct Hin as [<-|Hin]; [right; now left | right; now right].
      * intros y [<-|[<-|Hy]].
        -- apply Qle_trans with a; [now apply Qlt_le_weak | apply Hub; now left].
        -- apply Hub; now left.
        -- apply Hub; now right.
    + apply Qltb_ge in E. split.
      * destruct Hin as [<-|Hin]; [now left | right; now right].
      * intros y [<-|[<-|Hy]].
        -- apply Hub; now left.
        -- apply Qle_trans with x; [exact E | apply Hub; now left].
        -- apply Hub; now right.
Qed.

Lemma running_min_spec (xs : list Q) : forall x : Q,
  let m := fold_left (fun m item => if Qltb item m then item else m) xs x in
  In m (x :: xs) /\ forall y, In y (x :: xs) -> (m <= y)%Q.
Proof.
  induction xs as [|a xs IH]; intros x; cbn [fold_left].
  - split; [now left|]. intros y [<-|[]]. apply Qle_refl.
  - destruct (IH (if Qltb a x then a else x)) as [Hin Hlb].
    destruct (Qltb a x) eqn:E.
    + apply Qltb_lt in E. split.
      * destruct Hin as [<-|Hin]; [right; now left | right; now right].
      * intros y [<-|[<-|Hy]].
        -- apply Qle_trans with a; [apply Hlb; now left | now apply Qlt_le_weak].
        -- apply Hlb; now left.
        -- apply Hlb; now right.
    + apply Qltb_ge in E. split.
      * destruct Hin as [<-|Hin]; [now left | right; now right].
      * intros y [<-|[<-|Hy]].
        -- apply Hlb; now left.
        -- apply Qle_trans with x; [apply Hlb; now left | exact E].
        -- apply Hlb; now right.
Qed.

Lemma py_max_spec (l : list Q) (hi : Q) :
  py_max l = Ok hi -> In hi l /\ forall y, In y l -> (y <= hi)%Q.
Proof.
  destruct l as [|x xs]; cbn [py_max]; [discriminate|].
  intros [= <-]. apply running_max_spec.
Qed.

Lemma py_min_spec (l : list Q) (lo : Q) :
  py_min l = Ok lo -> In lo l /\ forall y, In y l -> (lo <= y)%Q.
Proof.
  destruct l as [|x xs]; cbn [py_min]; [discriminate|].
  intros [= <-]. apply running_min_spec.
Qed.

Lemma py_max_total (l : list Q) : l <> [] -> exists hi, py_max l = Ok hi.
Proof. destruct l; [congruence|]. intros _. eexists. reflexivity. Qed.

Lemma py_min_total (l : list Q) : l <> [] -> exists lo, py_min l = Ok lo.
Proof. destruct l; [congruence|]. intros _. eexists. reflexivity. Qed.

(** [max(l) > c] says that some item exceeds [c]; dually for [min]. *)
Lemma py_max_exceeds (l : list Q) (hi c : Q) :
  py_max l = Ok hi -> ((c < hi)%Q <-> exists a, In a l /\ (c < a)%Q).
Proof.
  intros H. apply py_max_spec in H as [Hin Hub]. split.
  - intros Hc. exists hi. auto.
  - intros (a & Ha & Hc). apply Qlt_le_trans with a; auto.
Qed.

Lemma py_min_below (l : list Q) (lo c : Q) :
  py_min l = Ok lo -> ((lo < c)%Q <-> exists b, In b l /\ (b < c)%Q).
Proof.
  intros H. apply py_min_spec in H as [Hin Hlb]. split.
  - intros Hc. exists lo. auto.
  - intros (b & Hb & Hc). apply Qle_lt_trans with b; auto.
Qed.

Lemma full_nonempty (l : list Q) : len l = SEQUENCE_LENGTH -> l <> [].
Proof. intros H ->. discriminate H. Qed.

(** The detector never raises: [max] and [min] are only reached on a list
    of six items. *)
Lemma detect_oscillation_total (gs : list Q) :
  detect_oscillation gs = Ok 0 \/ detect_oscillation gs = Ok 1.
Proof.
  unfold detect_oscillation.
  destruct (len gs =? SEQUENCE_LENGTH) eqn:E; [|now left].
  apply Z.eqb_eq, full_nonempty in E.
  destruct gs as [|x xs]; [congruence|]. cbn [py_max py_min bind].
  repeat match goal with |- context [if ?b then _ else _] => destruct b end; auto.
Qed.

(** ** Indexing *)

Lemma getitem_ok {A : Type} (l : list A) (i : nat) :
  (i < length l)%nat -> exists a, getitem l i = Ok a.
Proof.
  intros H. unfold getitem. destruct (nth_error l i) eqn:E; [eauto|].
  apply nth_error_None in E. lia.
Qed.

Lemma getitem_raise {A : Type} (l : list A) (i : nat) :
  (length l <= i)%nat -> getitem l i = Raise IndexError.
Proof.
  intros H. unfold getitem. now apply nth_error_None in H as ->.
Qed.

Lemma to_pixels_length (w h : Z) (face : Face) :
  length (to_pixels w h face) = length face.
Proof. apply length_map. Qed.

Lemma image_points_ok (l : list Point) :
  (292 <= length l)%nat -> exists pts, image_points l = Ok pts.
Proof.
  intros H. unfold image_points.
  destruct (getitem_ok l 1) as [a1 ->]; [lia|].
  destruct (getitem_ok l 152) as [a2 ->]; [lia|].
  destruct (getitem_ok l 33) as [a3 ->]; [lia|].
  destruct (getitem_ok l 263) as [a4 ->]; [lia|].
  destruct (getitem_ok l 61) as [a5 ->]; [lia|].
  destruct (getitem_ok l 291) as [a6 ->]; [lia|].
  cbn [bind]. eauto.
Qed.

Lemma getitem_cases {A : Type} (l : list A) (i : nat) :
  (exists a, getitem l i = Ok a) \/ getitem l i = Raise IndexError.
Proof. unfold getitem. destruct (nth_error l i); eauto. Qed.

Lemma image_points_raise (l : list Point) :
  (length l <= 291)%nat -> image_points l = Raise IndexError.
Proof.
  intros H. unfold image_points.
  destruct (getitem_cases l 1) as [[a1 ->]| ->]; cbn [bind]; [|reflexivity].
  destruct (getitem_cases l 152) as [[a2 ->]| ->]; cbn [bind]; [|reflexivity].
  destruct (getitem_cases l 33) as [[a3 ->]| ->]; cbn [bind]; [|reflexivity].
  destruct (getitem_cases l 263) as [[a4 ->]| ->]; cbn [bind]; [|reflexivity].
  destruct (getitem_cases l 61) as [[a5 ->]| ->]; cbn [bind]; [|reflexivity].
  now rewrite getitem_raise.
Qed.

Lemma avg_offset_ok (l : list Point) :
  (474 <= length l)%nat -> exists sample, avg_offset l = Ok sample.
Proof.
  intros H. unfold avg_offset.
  destruct (getitem_ok l 468) as [a1 ->]; [lia|].
  destruct (getitem_ok l 473) as [a2 ->]; [lia|].
  destruct (getitem_ok l 33) as [a3 ->]; [lia|].
  destruct (getitem_ok l 133) as [a4 ->]; [lia|].
  destruct (getitem_ok l 362) as [a5 ->]; [lia|].
  destruct (getitem_ok l 263) as [a6 ->]; [lia|].
  cbn [bind]. eauto.
Qed.

(** ** The face loop and the frame step *)

Section LoopFacts.

Variable solvePnP :
  ndarray -> ndarray -> ndarray -> ndarray -> option (bool * ndarray * ndarray).
Variable Rodrigues : ndarray -> option ndarray.
Variable RQDecomp3x3 : ndarray -> option (Q * Q * Q).

Local Notation body := (face_body solvePnP Rodrigues RQDecomp3x3).
Local Notation loop := (face_loop solvePnP Rodrigues RQDecomp3x3).
Local Notation step := (frame_step solvePnP Rodrigues RQDecomp3x3).
Local Notation outcome := (frame_outcome solvePnP Rodrigues RQDecomp3x3).
Local Notation session := (run solvePnP Rodrigues RQDecomp3x3).

(** The body written on the image points and the pose the OpenCV calls
    give for them. *)
Lemma face_body_pose (w h : Z) (face : Face) :
  body w h face =
  (pts <- image_points (to_pixels w h face) ;;
   pose <- solved_pose solvePnP Rodrigues RQDecomp3x3 pts (camera_matrix w h) ;;
   Ok {| landmarks := to_pixels w h face; success := fst pose;
         pitch := fst (fst (snd pose)); yaw := snd (fst (snd pose));
         roll := snd (snd pose) |}).
Proof.
  unfold face_body, solved_pose.
  destruct (image_points (to_pixels w h face)) as [pts|e]; cbn [bind]; [|reflexivity].
  destruct (solvePnP _ _ _ _) as [[[ok rvec] tvec]|]; cbn [cv bind fst snd]; [|reflexivity].
  destruct (Rodrigues rvec) as [rmat|]; cbn [cv bind]; [|reflexivity].
  destruct (RQDecomp3x3 rmat) as [[[a0 a1] a2]|]; cbn [cv bind fst snd]; reflexivity.
Qed.

Lemma face_body_returns (w h : Z) (face : Face) (v : LoopVars) :
  body w h face = Ok v ->
  landmarks v = to_pixels w h face /\ pose_ready face.
Proof.
  rewrite face_body_pose.
  destruct (image_points (to_pixels w h face)) as [pts|e] eqn:Ep; cbn [bind]; [|discriminate].
  destruct (solved_pose _ _ _ _ _) as [pose|e]; cbn [bind]; [|discriminate].
  intros [= <-]. split; [reflexivity|].
  unfold pose_ready. destruct (le_lt_dec (length face) 291) as [Hs|Hl]; [|lia].
  rewrite image_points_raise in Ep by (now rewrite to_pixels_length). discriminate.
Qed.

(** With the landmarks to read and OpenCV calls that return, the body
    returns. *)
Lemma face_body_ok (w h : Z) (face : Face) :
  pose_ready face ->
  (forall pts, image_points (to_pixels w h face) = Ok pts ->
               exists pose, solved_pose solvePnP Rodrigues RQDecomp3x3
                              pts (camera_matrix w h) = Ok pose) ->
  exists v, body w h face = Ok v /\ landmarks v = to_pixels w h face.
Proof.
  intros Hr Hcv. rewrite face_body_pose.
  destruct (image_points_ok (to_pixels w h face)) as [pts Hp].
  { rewrite to_pixels_length. exact Hr. }
  rewrite Hp. cbn [bind]. destruct (Hcv pts Hp) as [pose ->]. cbn [bind].
  eexists. split; reflexivity.
Qed.

Lemma face_body_raise (w h : Z) (face : Face) :
  (length face <= 291)%nat -> body w h face = Raise IndexError.
Proof.
  intros Hs. unfold face_body. rewrite image_points_raise; [reflexivity|].
  now rewrite to_pixels_length.
Qed.

Lemma face_loop_app (w h : Z) (fs1 fs2 : list Face) : forall vars,
  loop w h (fs1 ++ fs2) vars = (v <- loop w h fs1 vars ;; loop w h fs2 v).
Proof.
  induction fs1 as [|f fs1 IH]; intros vars; cbn [app face_loop bind].
  - reflexivity.
  - destruct (body w h f) as [v|e]; cbn [bind]; [apply IH | reflexivity].
Qed.

(** On a non-empty list the names held before the loop are dead. *)
Lemma face_loop_forgets (w h : Z) (fs : list Face) (vars1 vars2 : option LoopVars) :
  fs <> [] -> loop w h fs vars1 = loop w h fs vars2.
Proof.
  destruct fs as [|f fs]; [congruence|]. intros _. reflexivity.
Qed.

Lemma face_loop_binds (w h : Z) (fs : list Face) : forall vars r,
  fs <> [] -> loop w h fs vars = Ok r -> exists v, r = Some v.
Proof.
  induction fs as [|f fs IH]; intros vars r Hne; [congruence|].
  cbn [face_loop]. destruct (body w h f) as [v|e]; cbn [bind]; [|discriminate].
  destruct fs as [|f' fs].
  - cbn [face_loop]. intros [= <-]. eauto.
  - apply IH. discriminate.
Qed.

Lemma face_loop_ready (w h : Z) (fs : list Face) : forall vars,
  Forall (fun face => exists v, body w h face = Ok v) fs ->
  exists r, loop w h fs vars = Ok r.
Proof.
  induction fs as [|f fs IH]; intros vars Hall; cbn [face_loop].
  - eauto.
  - inversion Hall as [|? ? [v Hf] Hfs]; subst.
    rewrite Hf. cbn [bind]. apply IH, Hfs.
Qed.

(** A loop that returns has run the body on every face, and the body
    returned on each. *)
Lemma face_loop_all_return (w h : Z) (fs : list Face) : forall vars r,
  loop w h fs vars = Ok r ->
  Forall (fun face => exists v, body w h face = Ok v) fs.
Proof.
  induction fs as [|f fs IH]; intros vars r; cbn [face_loop]; [constructor|].
  destruct (body w h f) as [v|e] eqn:Eb; cbn [bind]; [|discriminate].
  intros Hl. constructor; [eauto | eapply IH, Hl].
Qed.

(** Last wins: after the loop the names hold what the final iteration
    bound, provided the earlier iterations did not raise. *)
Lemma face_loop_last (w h : Z) (fs : list Face) (last : Face) (vars vars' : option LoopVars) :
  Forall (fun face => exists v, body w h face = Ok v) fs ->
  loop w h (fs ++ [last]) vars = loop w h [last] vars'.
Proof.
  intros Hall. rewrite face_loop_app.
  destruct (face_loop_ready w h fs vars Hall) as [r ->]. cbn [bind].
  apply face_loop_forgets. discriminate.
Qed.

(** A face too short for the pose indices stops the frame, wherever it
    stands in the list: the loop raises on it or before it. *)
Lemma face_loop_raise (w h : Z) (fs : list Face) : forall vars,
  Exists (fun face => (length face <= 291)%nat) fs ->
  exists e, loop w h fs vars = Raise e.
Proof.
  intros vars Hex. destruct (loop w h fs vars) as [r|e] eqn:El; [|eauto].
  exfalso. apply face_loop_all_return in El.
  apply Exists_exists in Hex as (face & Hin & Hshort).
  rewrite Forall_forall in El. destruct (El face Hin) as [v Hv].
  apply face_body_returns in Hv as [_ Hready]. unfold pose_ready in Hready. lia.
Qed.

(** When the bodies before the first short face return, the exception is
    IndexError. *)
Lemma face_loop_raise_index (w h : Z) (pre : list Face) (face : Face) (post : list Face) :
  forall vars,
  Forall (fun face => exists v, body w h face = Ok v) pre ->
  (length face <= 291)%nat ->
  loop w h (pre ++ face :: post) vars = Raise IndexError.
Proof.
  intros vars Hpre Hshort. rewrite face_loop_app.
  destruct (face_loop_ready w h pre vars Hpre) as [r ->]. cbn [bind face_loop].
  now rewrite face_body_raise.
Qed.

Lemma truthy_faces {A : Type} (o : option (list A)) :
  truthy o = true -> faces_of o <> [].
Proof. destruct o as [[|a l]|]; cbn; congruence. Qed.

(** The step function and the outcome relation describe the same
    frames. *)
Lemma frame_step_outcome (g : Globals) (f : Frame) (flags : Flags) (g' : Globals) :
  step g f = Ok (flags, g') <-> outcome g f flags g'.
Proof.
  unfold frame_step. split.
  - destruct (truthy (multi_face_landmarks f)) eqn:Ht.
    + destruct (loop _ _ _ _) as [vars|e] eqn:El; cbn [bind]; [|discriminate].
      destruct (face_loop_binds _ _ _ _ _ (truthy_faces _ Ht) El) as [v ->].
      unfold after_loop. cbn [bind].
      destruct (head_test (yaw v)) eqn:Eh.
      * destruct (avg_offset (landmarks v)) as [sample|e] eqn:Ea; cbn [bind]; [|discriminate].
        destruct (detect_oscillation _) as [flag|e] eqn:Ed; cbn [bind fst snd]; [|discriminate].
        intros [= <- <-]. now apply head_turned.
      * cbn [fst snd]. intros [= <- <-]. now apply head_steady.
    + intros [= <- <-]. now apply no_face_seen.
  - intros [Ht | v Ht El Eh | v sample flag Ht El Eh Ea Ed]; rewrite Ht.
    + reflexivity.
    + rewrite El. cbn [bind after_loop]. unfold after_loop. cbn [bind].
      now rewrite Eh.
    + rewrite El. unfold after_loop. cbn [bind].
      rewrite Eh, Ea. cbn [bind]. now rewrite Ed.
Qed.

(** The names bound after the loop carry the landmarks of one of the
    faces of the frame. *)
Lemma face_loop_landmarks (w h : Z) (fs : list Face) : forall vars v,
  fs <> [] -> loop w h fs vars = Ok (Some v) ->
  exists face, In face fs /\ landmarks v = to_pixels w h face.
Proof.
  induction fs as [|f fs IH]; intros vars v Hne; [congruence|].
  cbn [face_loop]. destruct (body w h f) as [x|e] eqn:Eb; cbn [bind]; [|discriminate].
  destruct fs as [|f' fs].
  - cbn [face_loop]. intros [= <-]. exists f. split; [now left|].
    now apply face_body_returns in Eb.
  - intros Hl. destruct (IH (Some x) v) as (face & Hin & Hlm); [discriminate|exact Hl|].
    exists face. split; [now right | exact Hlm].
Qed.

(** On faces that have every landmark the script reads, and with OpenCV
    calls that return on the image points of each of them, a frame ends
    without an exception. *)
Lemma frame_step_total (g : Globals) (f : Frame) :
  Forall gaze_ready (faces_of (multi_face_landmarks f)) ->
  (forall face pts,
      In face (faces_of (multi_face_landmarks f)) ->
      image_points (to_pixels (frame_w f) (frame_h f) face) = Ok pts ->
      exists pose, solved_pose solvePnP Rodrigues RQDecomp3x3
                     pts (camera_matrix (frame_w f) (frame_h f)) = Ok pose) ->
  exists flags g', step g f = Ok (flags, g').
Proof.
  intros Hall Hcv. unfold frame_step.
  destruct (truthy (multi_face_landmarks f)) eqn:Ht; [|eauto].
  pose proof (truthy_faces _ Ht) as Hne.
  assert (Hret : Forall (fun face => exists v, body (frame_w f) (frame_h f) face = Ok v)
                        (faces_of (multi_face_landmarks f))).
  { rewrite Forall_forall in *. intros face Hin.
    destruct (face_body_ok (frame_w f) (frame_h f) face) as (v & Hv & _); eauto.
    specialize (Hall face Hin). unfold gaze_ready, pose_ready in *. lia. }
  destruct (face_loop_ready (frame_w f) (frame_h f) _ (loop_vars g) Hret) as [r El].
  rewrite El. cbn [bind].
  destruct (face_loop_binds _ _ _ _ _ Hne El) as [v ->].
  destruct (face_loop_landmarks _ _ _ _ _ Hne El) as (face & Hin & Hlm).
  unfold after_loop. cbn [bind].
  destruct (head_test (yaw v)); [|cbn [bind fst snd]; eauto].
  destruct (avg_offset_ok (landmarks v)) as [sample ->].
  { rewrite Hlm, to_pixels_length. rewrite Forall_forall in Hall. now apply Hall. }
  cbn [bind].
  destruct (detect_oscillation_total (store_sequence (gaze_sequence g) sample)) as [-> | ->];
    cbn [bind fst snd]; eauto.
Qed.

End LoopFacts.

(** ** Two OpenCV stacks that bind the same yaw *)

Section TwoStacks.

Variables solveA solveB :
  ndarray -> ndarray -> ndarray -> ndarray -> option (bool * ndarray * ndarray).
Variables RodriguesA RodriguesB : ndarray -> option ndarray.
Variables DecompA DecompB : ndarray -> option (Q * Q * Q).

Hypothesis same_yaw : forall image camera : ndarray,
  solved_yaw solveA RodriguesA DecompA image camera =
  solved_yaw solveB RodriguesB DecompB image camera.

Lemma face_body_same (w h : Z) (face : Face) :
  result_rel same_reading
    (face_body solveA RodriguesA DecompA w h face)
    (face_body solveB RodriguesB DecompB w h face).
Proof.
  rewrite !face_body_pose.
  destruct (image_points (to_pixels w h face)) as [pts|e]; cbn [bind]; [|reflexivity].
  pose proof (same_yaw pts (camera_matrix w h)) as Hy. unfold solved_yaw in Hy.
  destruct (solved_pose solveA _ _ _ _) as [poseA|eA],
           (solved_pose solveB _ _ _ _) as [poseB|eB]; cbn [bind result_rel] in *;
    try discriminate.
  - injection Hy as Hy. split; [reflexivity | exact Hy].
  - now injection Hy.
Qed.

Lemma face_loop_same (w h : Z) (fs : list Face) : forall va vb : option LoopVars,
  option_rel same_reading va vb ->
  result_rel (option_rel same_reading)
    (face_loop solveA RodriguesA DecompA w h fs va)
    (face_loop solveB RodriguesB DecompB w h fs vb).
Proof.
  induction fs as [|f fs IH]; intros va vb Hv; cbn [face_loop].
  - exact Hv.
  - pose proof (face_body_same w h f) as Hb.
    destruct (face_body solveA _ _ w h f) as [xa|ea],
             (face_body solveB _ _ w h f) as [xb|eb]; cbn [result_rel bind] in *;
      try contradiction; [|exact Hb].
    apply IH. exact Hb.
Qed.

Lemma after_loop_same (gs : list Q) (va vb : option LoopVars) :
  option_rel same_reading va vb -> after_loop gs va = after_loop gs vb.
Proof.
  destruct va as [va|], vb as [vb|]; cbn [option_rel]; try contradiction; [|reflexivity].
  intros [Hl Hy]. unfold after_loop. cbn [bind]. now rewrite Hl, Hy.
Qed.

Lemma frame_step_same (g1 g2 : Globals) (f : Frame) :
  gaze_sequence g1 = gaze_sequence g2 ->
  observe (frame_step solveA RodriguesA DecompA g1 f) =
  observe (frame_step solveB RodriguesB DecompB g2 f).
Proof.
  intros Hgs. unfold frame_step.
  destruct (truthy (multi_face_landmarks f)) eqn:Ht.
  - rewrite (face_loop_forgets solveA _ _ _ _ _ (loop_vars g1) None (truthy_faces _ Ht)).
    rewrite (face_loop_forgets solveB _ _ _ _ _ (loop_vars g2) None (truthy_faces _ Ht)).
    pose proof (face_loop_same (frame_w f) (frame_h f)
                  (faces_of (multi_face_landmarks f)) None None I) as Hl.
    destruct (face_loop solveA _ _ _ _ _ None) as [va|ea],
             (face_loop solveB _ _ _ _ _ None) as [vb|eb]; cbn [result_rel bind] in *;
      try contradiction; [|now subst].
    rewrite (after_loop_same _ va vb Hl), Hgs.
    destruct (after_loop (gaze_sequence g2) vb) as [r|e]; reflexivity.
  - cbn. now rewrite Hgs.
Qed.

End TwoStacks.

(** Stacks that hand the same rotation vectors to the same [Rodrigues]
    and decompose to the same yaw bind the same yaw, and raise alike. *)
Lemma solved_yaw_ext
      (solveA solveB : ndarray -> ndarray -> ndarray -> ndarray ->
                       option (bool * ndarray * ndarray))
      (Rod : ndarray -> option ndarray)
      (DecompA DecompB : ndarray -> option (Q * Q * Q)) :
  (forall model image camera dist,
      option_map (fun r => snd (fst r)) (solveA model image camera dist) =
      option_map (fun r => snd (fst r)) (solveB model image camera dist)) ->
  (forall rmat,
      option_map (fun a => snd (fst a)) (DecompA rmat) =
      option_map (fun a => snd (fst a)) (DecompB rmat)) ->
  forall image camera,
    solved_yaw solveA Rod DecompA image camera = solved_yaw solveB Rod DecompB image camera.
Proof.
  intros Hs Hd image camera. unfold solved_yaw, solved_pose.
  specialize (Hs model_points image camera dist_coeffs).
  destruct (solveA _ _ _ _) as [[[okA rvA] tvA]|], (solveB _ _ _ _) as [[[okB rvB] tvB]|];
    cbn [option_map fst snd] in Hs; try discriminate; cbn [cv bind fst snd];
    [|reflexivity].
  injection Hs as ->.
  destruct (Rod rvB) as [rmat|]; cbn [cv bind]; [|reflexivity].
  specialize (Hd rmat).
  destruct (DecompA rmat) as [[[a0 a1] a2]|], (DecompB rmat) as [[[b0 b1] b2]|];
    cbn [option_map fst snd] in Hd; try discriminate; cbn [cv bind fst snd];
    [|reflexivity].
  now injection Hd as ->.
Qed.

Section Claims.

Variable solvePnP :
  ndarray -> ndarray -> ndarray -> ndarray -> option (bool * ndarray * ndarray).
Variable Rodrigues : ndarray -> option ndarray.
Variable RQDecomp3x3 : ndarray -> option (Q * Q * Q).

Local Notation step := (frame_step solvePnP Rodrigues RQDecomp3x3).
Local Notation session := (run solvePnP Rodrigues RQDecomp3x3).

(** ** The gaze window *)

Lemma detect_full (gs : list Q) (hi lo : Q) :
  len gs = SEQUENCE_LENGTH -> py_max gs = Ok hi -> py_min gs = Ok lo ->
  detect_oscillation gs =
  Ok (if Qltb (inject_Z GAZE_THRESHOLD) hi && Qltb lo (inject_Z (- GAZE_THRESHOLD))
      then 1 else 0).
Proof.
  intros Hlen Hhi Hlo. unfold detect_oscillation.
  rewrite Hlen, Z.eqb_refl, Hhi. cbn [bind].
  destruct (Qltb (inject_Z GAZE_THRESHOLD) hi); cbn [andb]; [|reflexivity].
  rewrite Hlo. cbn [bind].
  now destruct (Qltb lo (inject_Z (- GAZE_THRESHOLD))).
Qed.

Lemma detect_short (gs : list Q) :
  len gs <> SEQUENCE_LENGTH -> detect_oscillation gs = Ok 0.
Proof.
  intros H. unfold detect_oscillation. now apply Z.eqb_neq in H as ->.
Qed.

Lemma store_sequence_cases (gs : list Q) (s : Q) :
  (len gs < SEQUENCE_LENGTH /\ store_sequence gs s = gs ++ [s]) \/
  (SEQUENCE_LENGTH <= len gs /\ store_sequence gs s = tl gs ++ [s] /\ gs <> []).
Proof.
  unfold store_sequence. rewrite len_app. change (len [s]) with 1.
  destruct (Z.gtb_spec (len gs + 1) SEQUENCE_LENGTH) as [Hgt|Hle].
  - right. split; [lia|]. destruct gs as [|x gs].
    + exfalso. change (len (@nil Q)) with 0 in Hgt. unfold SEQUENCE_LENGTH in Hgt. lia.
    + split; [reflexivity | discriminate].
  - left. split; [lia | reflexivity].
Qed.

Lemma store_sequence_len (gs : list Q) (s : Q) :
  len gs <= SEQUENCE_LENGTH -> len (store_sequence gs s) <= SEQUENCE_LENGTH.
Proof.
  intros H. destruct (store_sequence_cases gs s) as [[Hlt ->]|(Hge & -> & Hne)];
    rewrite len_app; change (len [s]) with 1.
  - lia.
  - rewrite len_tl by exact Hne. lia.
Qed.

(** C1.  On a window of exactly [SEQUENCE_LENGTH] = 6 samples the detector
    returns 1 exactly when [max] of the window is above [GAZE_THRESHOLD]
    and [min] of it is below [-GAZE_THRESHOLD], and 0 otherwise; [max] and
    [min] are the largest and the smallest sample, so the test asks for
    one sample above 6 and one below -6 anywhere in the window.  A frame
    that ran the detector and left a full window reports that value.
    [8,-8,8,-8,8,-8] and [8,8,8,8,8,-8] give 1, [8,8,8,8,8,8] gives 0. *)
Theorem gaze_abnormal_iff_both_extremes :
  (forall gs : list Q,
      len gs = SEQUENCE_LENGTH ->
      exists hi lo : Q,
        py_max gs = Ok hi /\ py_min gs = Ok lo /\
        (In hi gs /\ forall x, In x gs -> (x <= hi)%Q) /\
        (In lo gs /\ forall x, In x gs -> (lo <= x)%Q) /\
        (detect_oscillation gs = Ok 1 <->
         (inject_Z GAZE_THRESHOLD < hi)%Q /\ (lo < inject_Z (- GAZE_THRESHOLD))%Q) /\
        (detect_oscillation gs = Ok 0 <->
         ~ ((inject_Z GAZE_THRESHOLD < hi)%Q /\ (lo < inject_Z (- GAZE_THRESHOLD))%Q)) /\
        (detect_oscillation gs = Ok 1 <->
         (exists a, In a gs /\ (6 < a)%Q) /\ (exists b, In b gs /\ (b < -6)%Q))) /\
  (forall (g : Globals) (f : Frame) (flags : Flags) (g' : Globals),
      step g f = Ok (flags, g') ->
      head_abnormal flags = 1 ->
      len (gaze_sequence g') = SEQUENCE_LENGTH ->
      (gaze_abnormal flags = 1 <->
       (exists a, In a (gaze_sequence g') /\ (6 < a)%Q) /\
       (exists b, In b (gaze_sequence g') /\ (b < -6)%Q))) /\
  detect_oscillation [8; -8; 8; -8; 8; -8]%Q = Ok 1 /\
  detect_oscillation [8; 8; 8; 8; 8; -8]%Q = Ok 1 /\
  detect_oscillation [8; 8; 8; 8; 8; 8]%Q = Ok 0.
Proof.
  assert (Hwin : forall gs : list Q,
      len gs = SEQUENCE_LENGTH ->
      exists hi lo : Q,
        py_max gs = Ok hi /\ py_min gs = Ok lo /\
        (In hi gs /\ forall x, In x gs -> (x <= hi)%Q) /\
        (In lo gs /\ forall x, In x gs -> (lo <= x)%Q) /\
        (detect_oscillation gs = Ok 1 <->
         (inject_Z GAZE_THRESHOLD < hi)%Q /\ (lo < inject_Z (- GAZE_THRESHOLD))%Q) /\
        (detect_oscillation gs = Ok 0 <->
         ~ ((inject_Z GAZE_THRESHOLD < hi)%Q /\ (lo < inject_Z (- GAZE_THRESHOLD))%Q)) /\
        (detect_oscillation gs = Ok 1 <->
         (exists a, In a gs /\ (6 < a)%Q) /\ (exists b, In b gs /\ (b < -6)%Q))).
  { intros gs Hlen.
    destruct (py_max_total gs (full_nonempty gs Hlen)) as [hi Hhi].
    destruct (py_min_total gs (full_nonempty gs Hlen)) as [lo Hlo].
    exists hi, lo.
    pose proof (detect_full gs hi lo Hlen Hhi Hlo) as Hd.
    pose proof (Qltb_lt (inject_Z GAZE_THRESHOLD) hi) as Hup.
    pose proof (Qltb_lt lo (inject_Z (- GAZE_THRESHOLD))) as Hdown.
    assert (Hone : detect_oscillation gs = Ok 1 <->
                   (inject_Z GAZE_THRESHOLD < hi)%Q /\ (lo < inject_Z (- GAZE_THRESHOLD))%Q).
    { rewrite Hd, <- Hup, <- Hdown.
      destruct (Qltb (inject_Z GAZE_THRESHOLD) hi), (Qltb lo (inject_Z (- GAZE_THRESHOLD)));
        cbn [andb]; intuition congruence. }
    split; [exact Hhi|]. split; [exact Hlo|].
    split; [now apply py_max_spec|]. split; [now apply py_min_spec|].
    split; [exact Hone|]. split; [split|split].
    - intros H0 Hboth. apply Hone in Hboth. congruence.
    - intros Hnot. destruct (detect_oscillation_total gs) as [H0|H1]; [exact H0|].
      exfalso. apply Hnot, Hone, H1.
    - intros H1. apply Hone in H1 as [Hhigh Hlow]. split.
      + now apply (py_max_exceeds gs hi 6 Hhi).
      + now apply (py_min_below gs lo (-6) Hlo).
    - intros [Ha Hb]. apply Hone. split.
      + now apply (py_max_exceeds gs hi 6 Hhi).
      + now apply (py_min_below gs lo (-6) Hlo). }
  split; [exact Hwin|]. split; [|repeat split].
  intros g f flags g' Hstep Hhead Hlen.
  apply frame_step_outcome in Hstep.
  destruct Hstep as [Ht | v Ht El Eh | v sample flag Ht El Eh Ea Ed];
    try (cbn in Hhead; discriminate).
  cbn [gaze_sequence gaze_abnormal] in *.
  destruct (Hwin _ Hlen) as (hi & lo & _ & _ & _ & _ & _ & _ & Hiff).
  rewrite <- Hiff, Ed. split; congruence.
Qed.

(** ** The head threshold *)

Lemma head_flag_rule (yaw : Q) :
  ((10 < Qabs yaw)%Q -> head_flag yaw = 1) /\
  (~ (10 < Qabs yaw)%Q -> head_flag yaw = 0).
Proof.
  unfold head_flag, head_test.
  destruct (Qltb 10 (Qabs yaw)) eqn:E.
  - apply Qltb_lt in E. split; [reflexivity | contradiction].
  - apply Qltb_ge in E. split; [|reflexivity].
    intros Hlt. exfalso. exact (Qlt_not_le _ _ Hlt E).
Qed.

(** The head flag of a frame does not depend on the state the frame
    starts from, neither on the window nor on the names bound earlier. *)
Lemma head_memoryless (g1 g2 : Globals) (f : Frame) :
  head_of (step g1 f) = head_of (step g2 f).
Proof.
  unfold frame_step.
  destruct (truthy (multi_face_landmarks f)) eqn:Ht; [|reflexivity].
  rewrite (face_loop_forgets _ _ _ _ _ _ (loop_vars g1) (loop_vars g2) (truthy_faces _ Ht)).
  destruct (face_loop _ _ _ _ _ _ (loop_vars g2)) as [[v|]|e]; cbn [bind]; try reflexivity.
  unfold after_loop. cbn [bind].
  destruct (head_test (yaw v)); [|reflexivity].
  destruct (avg_offset (landmarks v)) as [sample|e]; cbn [bind]; [|reflexivity].
  destruct (detect_oscillation_total (store_sequence (gaze_sequence g1) sample)) as [-> | ->];
    destruct (detect_oscillation_total (store_sequence (gaze_sequence g2) sample)) as [-> | ->];
    reflexivity.
Qed.

(** C2.  The head flag is 1 when |yaw| > 10 and 0 otherwise.  In a frame
    with a face the flag is that function of the yaw the loop bound last;
    it is the same whatever state the frame starts from (no memory), and
    flags and window are the same under any decomposition that returns
    the same yaw with other pitch and roll (and raises on the same
    matrices).  9.9 gives 0, 10.1 gives 1, -15 gives 1. *)
Theorem head_abnormal_yaw_threshold :
  (forall yaw : Q,
      ((10 < Qabs yaw)%Q -> head_flag yaw = 1) /\
      (~ (10 < Qabs yaw)%Q -> head_flag yaw = 0)) /\
  (forall (g : Globals) (f : Frame) (flags : Flags) (g' : Globals),
      step g f = Ok (flags, g') ->
      truthy (multi_face_landmarks f) = true ->
      exists v, loop_vars g' = Some v /\ head_abnormal flags = head_flag (yaw v)) /\
  (forall (g1 g2 : Globals) (f : Frame),
      head_of (step g1 f) = head_of (step g2 f)) /\
  (forall (Decomp' : ndarray -> option (Q * Q * Q)) (g : Globals) (f : Frame),
      (forall rmat,
          option_map (fun a => snd (fst a)) (Decomp' rmat) =
          option_map (fun a => snd (fst a)) (RQDecomp3x3 rmat)) ->
      observe (frame_step solvePnP Rodrigues Decomp' g f) = observe (step g f)) /\
  head_flag (99 # 10) = 0 /\ head_flag (101 # 10) = 1 /\ head_flag (-15) = 1.
Proof.
  split; [exact head_flag_rule|].
  split; [|split; [exact head_memoryless|split; [|repeat split]]].
  - intros g f flags g' Hstep Ht. apply frame_step_outcome in Hstep.
    destruct Hstep as [Hf | v _ _ Eh | v sample flag _ _ Eh _ _].
    + congruence.
    + exists v. unfold head_flag. rewrite Eh. split; reflexivity.
    + exists v. unfold head_flag. rewrite Eh. split; reflexivity.
  - intros Decomp' g f Hyaw. apply frame_step_same; [|reflexivity].
    apply solved_yaw_ext; [reflexivity | exact Hyaw].
Qed.

(** ** Degenerate and failed solves *)

Lemma face_body_binds (w h : Z) (face : Face) (v : LoopVars) :
  face_body solvePnP Rodrigues RQDecomp3x3 w h face = Ok v ->
  exists pts ok rvec tvec,
    image_points (to_pixels w h face) = Ok pts /\
    landmarks v = to_pixels w h face /\
    solvePnP model_points pts (camera_matrix w h) dist_coeffs = Some (ok, rvec, tvec) /\
    success v = ok /\
    solved_yaw solvePnP Rodrigues RQDecomp3x3 pts (camera_matrix w h) = Ok (yaw v).
Proof.
  unfold face_body, solved_yaw, solved_pose.
  destruct (image_points (to_pixels w h face)) as [pts|e]; cbn [bind]; [|discriminate].
  destruct (solvePnP _ _ _ _) as [[[ok rvec] tvec]|] eqn:Es; cbn [cv bind fst snd];
    [|discriminate].
  destruct (Rodrigues rvec) as [rmat|] eqn:Er; cbn [cv bind]; [|discriminate].
  destruct (RQDecomp3x3 rmat) as [[[a0 a1] a2]|] eqn:Ed; cbn [cv bind fst snd];
    [|discriminate].
  intros [= <-]. exists pts, ok, rvec, tvec. cbn [landmarks success yaw].
  split; [reflexivity|]. split; [reflexivity|]. split; [exact Es|].
  split; [reflexivity|].
  rewrite Es. cbn [cv bind fst snd]. rewrite Er. cbn [cv bind]. rewrite Ed.
  reflexivity.
Qed.

(** An exception of a frame ends the session and the capture loop. *)
Lemma raise_ends_session (g : Globals) (f : Frame) (e : exn) (frames : list Frame) :
  step g f = Raise e -> session g (f :: frames) = Raise e.
Proof. intros H. cbn [run]. now rewrite H. Qed.

Lemma raise_ends_capture (g : Globals) (t : Tick) (e : exn) (ticks : list Tick) :
  ret t = true -> step g (frame t) = Raise e ->
  main_loop solvePnP Rodrigues RQDecomp3x3 g (t :: ticks) = Raise e.
Proof. intros Hr H. cbn [main_loop]. now rewrite Hr, H. Qed.

(** The frame of a list of faces that ends without an exception has
    classified the pose solved for its last face. *)
Lemma step_classifies_last (g : Globals) (h w : Z) (fs : list Face) (last : Face)
      (flags : Flags) (g' : Globals) :
  step g (frame_of h w (fs ++ [last])) = Ok (flags, g') ->
  exists v,
    face_body solvePnP Rodrigues RQDecomp3x3 w h last = Ok v /\
    loop_vars g' = Some v /\
    ((head_test (yaw v) = false /\ flags = no_signal /\
      gaze_sequence g' = gaze_sequence g) \/
     (head_test (yaw v) = true /\
      exists sample,
        avg_offset (landmarks v) = Ok sample /\
        gaze_sequence g' = store_sequence (gaze_sequence g) sample /\
        detect_oscillation (gaze_sequence g') = Ok (gaze_abnormal flags) /\
        head_abnormal flags = 1 /\
        printed flags = Some (1, gaze_abnormal flags))).
Proof.
  intros Hstep. apply frame_step_outcome in Hstep.
  assert (Hlast : forall v,
             face_loop solvePnP Rodrigues RQDecomp3x3 w h (fs ++ [last]) (loop_vars g)
             = Ok (Some v) ->
             face_body solvePnP Rodrigues RQDecomp3x3 w h last = Ok v).
  { intros v El. rewrite face_loop_app in El.
    destruct (face_loop _ _ _ w h fs (loop_vars g)) as [r|e]; cbn [bind] in El;
      [|discriminate].
    cbn [face_loop] in El.
    destruct (face_body _ _ _ w h last) as [x|e]; cbn [bind] in El; [|discriminate].
    now injection El as ->. }
  unfold frame_of in Hstep.
  destruct Hstep as [Ht | v Ht El Eh | v sample flag Ht El Eh Ea Ed];
    cbn [multi_face_landmarks frame_w frame_h faces_of gaze_sequence loop_vars] in *.
  - destruct fs; discriminate.
  - exists v. split; [now apply Hlast|]. split; [reflexivity|]. left. auto.
  - exists v. split; [now apply Hlast|]. split; [reflexivity|]. right.
    split; [exact Eh|]. exists sample. cbn [head_abnormal gaze_abnormal printed]. auto.
Qed.


(** ** Window capacity and eviction order *)

Lemma step_keeps_bound (g : Globals) (f : Frame) (flags : Flags) (g' : Globals) :
  step g f = Ok (flags, g') ->
  len (gaze_sequence g) <= SEQUENCE_LENGTH ->
  len (gaze_sequence g') <= SEQUENCE_LENGTH.
Proof.
  intros Hstep Hb. apply frame_step_outcome in Hstep.
  destruct Hstep; cbn [gaze_sequence]; auto using store_sequence_len.
Qed.

Lemma session_keeps_bound (frames : list Frame) : forall g flags g',
  session g frames = Ok (flags, g') ->
  len (gaze_sequence g) <= SEQUENCE_LENGTH ->
  len (gaze_sequence g') <= SEQUENCE_LENGTH.
Proof.
  induction frames as [|f frames IH]; intros g flags g'; cbn [run].
  - now intros [= _ <-].
  - destruct (step g f) as [[fl g1]|e] eqn:Es; cbn [bind fst snd]; [|discriminate].
    destruct (session g1 frames) as [[fls g2]|e] eqn:Er; cbn [bind fst snd]; [|discriminate].
    intros [= _ <-] Hb. eapply IH; [exact Er|]. eapply step_keeps_bound; eauto.
Qed.

(** Storing a run of samples keeps the last six of everything stored. *)
Lemma store_all_suffix (samples : list Q) : forall gs : list Q,
  len gs <= SEQUENCE_LENGTH ->
  fold_left store_sequence samples gs =
  skipn (length (gs ++ samples) - 6) (gs ++ samples).
Proof.
  induction samples as [|s samples IH]; intros gs Hb; cbn [fold_left].
  - rewrite app_nil_r.
    replace (length gs - 6)%nat with 0%nat; [reflexivity|].
    unfold len, SEQUENCE_LENGTH in Hb. lia.
  - rewrite IH by now apply store_sequence_len.
    destruct (store_sequence_cases gs s) as [[Hlt ->]|(Hge & -> & Hne)].
    + now rewrite <- app_assoc.
    + destruct gs as [|x gs]; [congruence|]. cbn [tl].
      rewrite <- !app_assoc. cbn [app].
      unfold len, SEQUENCE_LENGTH in Hb, Hge. cbn [length] in Hb, Hge.
      assert (Hn : (6 <= length (gs ++ s :: samples))%nat)
        by (rewrite length_app; cbn [length]; lia).
      change (length (x :: gs ++ s :: samples)) with (S (length (gs ++ s :: samples))).
      replace (S (length (gs ++ s :: samples)) - 6)%nat
        with (S (length (gs ++ s :: samples) - 6))%nat by lia.
      reflexivity.
Qed.

(** C4.  Storing a sample never leaves more than [SEQUENCE_LENGTH] = 6
    samples in the window, so no state a session reaches from the empty
    window holds more.  Stored one after the other into the empty window,
    samples leave exactly the last six of them, in the order stored; of
    seven samples the first is dropped and the other six remain. *)
Theorem gaze_window_bounded_fifo :
  (forall (gs : list Q) (s : Q),
      len gs <= SEQUENCE_LENGTH -> len (store_sequence gs s) <= SEQUENCE_LENGTH) /\
  (forall (frames : list Frame) (flags : list Flags) (g : Globals),
      session initial frames = Ok (flags, g) ->
      len (gaze_sequence g) <= SEQUENCE_LENGTH) /\
  (forall samples : list Q,
      fold_left store_sequence samples [] = skipn (length samples - 6) samples) /\
  (forall s1 s2 s3 s4 s5 s6 s7 : Q,
      fold_left store_sequence [s1; s2; s3; s4; s5; s6; s7] [] =
      [s2; s3; s4; s5; s6; s7]).
Proof.
  split; [exact store_sequence_len|]. split; [|split].
  - intros frames flags g Hrun. eapply session_keeps_bound; [exact Hrun|].
    discriminate.
  - intros samples. now rewrite store_all_suffix by discriminate.
  - reflexivity.
Qed.

(** C5.  With fewer than [SEQUENCE_LENGTH] = 6 samples in the window the
    detector returns 0 whatever the samples are, and a frame that leaves
    such a window reports [gaze_abnormal] = 0. *)
Theorem cold_start_reports_zero :
  (forall gs : list Q, len gs < SEQUENCE_LENGTH -> detect_oscillation gs = Ok 0) /\
  (forall (g : Globals) (f : Frame) (flags : Flags) (g' : Globals),
      step g f = Ok (flags, g') ->
      len (gaze_sequence g') < SEQUENCE_LENGTH ->
      gaze_abnormal flags = 0).
Proof.
  split.
  - intros gs Hlt. apply detect_short. lia.
  - intros g f flags g' Hstep Hlt. apply frame_step_outcome in Hstep.
    destruct Hstep as [Ht | v Ht El Eh | v sample flag Ht El Eh Ea Ed];
      try reflexivity.
    cbn [gaze_sequence gaze_abnormal] in *.
    rewrite detect_short in Ed by lia. congruence.
Qed.

(** ** Gating of the gaze analysis *)

(** C6.  A frame computes the gaze sample, stores it and runs the
    detector only under [head_abnormal] = 1.  A frame that ends with
    [head_abnormal] = 0 has [gaze_abnormal] = 0, leaves the window as it
    was and prints nothing; [gaze_abnormal] = 1 and a changed window both
    imply [head_abnormal] = 1.  A frame whose last face has a steady head
    ends so whether or not the iris landmarks can be read, since it does
    not read them: a face of 300 landmarks ends the frame quietly when
    steady and raises IndexError when turned. *)
Theorem gaze_analysis_gated_on_head :
  (forall (g : Globals) (f : Frame) (flags : Flags) (g' : Globals),
      step g f = Ok (flags, g') ->
      (head_abnormal flags = 0 \/ head_abnormal flags = 1) /\
      (head_abnormal flags = 0 ->
       gaze_abnormal flags = 0 /\ gaze_sequence g' = gaze_sequence g /\
       printed flags = None) /\
      (gaze_abnormal flags = 1 -> head_abnormal flags = 1) /\
      (gaze_sequence g' <> gaze_sequence g -> head_abnormal flags = 1)) /\
  (forall (g : Globals) (f : Frame) (v : LoopVars),
      truthy (multi_face_landmarks f) = true ->
      face_loop solvePnP Rodrigues RQDecomp3x3 (frame_w f) (frame_h f)
                (faces_of (multi_face_landmarks f)) (loop_vars g) = Ok (Some v) ->
      head_test (yaw v) = false ->
      step g f = Ok (no_signal, {| gaze_sequence := gaze_sequence g;
                                   loop_vars := Some v |})) /\
  observe (frame_step (toy_solvePnP true) toy_Rodrigues toy_RQDecomp3x3
             five_samples (toy_frame (Some [short_face 0]))) =
    Ok (no_signal, [8; -8; 8; -8; 8]%Q) /\
  observe (frame_step (toy_solvePnP true) toy_Rodrigues toy_RQDecomp3x3
             five_samples (toy_frame (Some [short_face 25]))) =
    Raise IndexError.
Proof.
  split; [|split; [|split; vm_compute; reflexivity]].
  - intros g f flags g' Hstep. apply frame_step_outcome in Hstep.
    destruct Hstep as [Ht | v Ht El Eh | v sample flag Ht El Eh Ea Ed];
      cbn [head_abnormal gaze_abnormal printed gaze_sequence loop_vars no_signal].
    + repeat split; auto; try discriminate; try congruence.
    + repeat split; auto; try discriminate; try congruence.
    + split; [now right|]. split; [discriminate|]. split; reflexivity.
  - intros g f v Ht El Eh. apply frame_step_outcome. now apply head_steady.
Qed.

(** ** The camera model *)

(** C7.  For every frame width W and height H the intrinsic matrix is
    [[W, 0, W/2], [0, W, H/2], [0, 0, 1]]: the focal length is W and the
    principal point, doubled, is (W, H); the distortion model is four
    zeros in a column.  Both are total functions of (W, H) alone;
    positivity of W and H is not needed. *)
Theorem camera_model_pinhole :
  forall W H : Z,
    camera_matrix W H =
      [ [ inject_Z W; 0; inject_Z W / 2 ];
        [ 0; inject_Z W; inject_Z H / 2 ];
        [ 0; 0; 1 ] ]%Q /\
    focal_length W = W /\
    (2 * fst (center W H) == inject_Z W)%Q /\
    (2 * snd (center W H) == inject_Z H)%Q /\
    dist_coeffs = [ [0]; [0]; [0]; [0] ]%Q /\
    Forall (Forall (fun c => c == 0)%Q) dist_coeffs.
Proof.
  intros W H. split; [reflexivity|]. split; [reflexivity|].
  split; [cbn [center fst]; field|]. split; [cbn [center snd]; field|].
  split; [reflexivity|].
  repeat constructor.
Qed.

(** ** Frames without a face *)

(** C8.  When the face-mesh answer is [None] or the empty list, the frame
    ends without an exception with [head_abnormal] = 0 and
    [gaze_abnormal] = 0, prints nothing, and leaves the whole state, the
    gaze window included, as it was. *)
Theorem no_face_no_signal :
  forall (g : Globals) (f : Frame),
    multi_face_landmarks f = None \/ multi_face_landmarks f = Some [] ->
    step g f =
    Ok ({| head_abnormal := 0; gaze_abnormal := 0; printed := None |}, g).
Proof.
  intros g f Hnone. unfold frame_step.
  now destruct Hnone as [-> | ->].
Qed.

(** ** Several faces *)

(** C9.  With several faces in a frame the loop body runs on each of
    them in order and every run rebinds the same names, so what the lines
    after the loop read is what the last face bound.  A frame that ends
    without an exception has run the body on every face; its head flag is
    the threshold on the yaw solved for the last face, and under that
    flag the sample it stores is the gaze sample of the last face's
    landmarks and its gaze flag the verdict on the window with that
    sample.  The earlier faces leave no trace: the frame ends exactly as
    the frame holding the last face alone.  A face too short for the pose
    indices makes the frame raise wherever it stands.  A steady face
    followed by a turned one is classified as turned, a turned face
    followed by a steady one as steady. *)
Theorem last_face_wins :
  (forall (g : Globals) (h w : Z) (fs : list Face) (last : Face),
      Forall (fun face => exists v,
                  face_body solvePnP Rodrigues RQDecomp3x3 w h face = Ok v) fs ->
      step g (frame_of h w (fs ++ [last])) = step g (frame_of h w [last])) /\
  (forall (g : Globals) (h w : Z) (fs : list Face) (last : Face)
          (flags : Flags) (g' : Globals),
      step g (frame_of h w (fs ++ [last])) = Ok (flags, g') ->
      exists v,
        face_body solvePnP Rodrigues RQDecomp3x3 w h last = Ok v /\
        landmarks v = to_pixels w h last /\
        loop_vars g' = Some v /\
        head_abnormal flags = head_flag (yaw v) /\
        (head_test (yaw v) = false ->
         flags = no_signal /\ gaze_sequence g' = gaze_sequence g) /\
        (head_test (yaw v) = true ->
         exists sample,
           avg_offset (to_pixels w h last) = Ok sample /\
           gaze_sequence g' = store_sequence (gaze_sequence g) sample /\
           detect_oscillation (gaze_sequence g') = Ok (gaze_abnormal flags))) /\
  (forall (g : Globals) (h w : Z) (fs : list Face) (flags : Flags) (g' : Globals),
      step g (frame_of h w fs) = Ok (flags, g') ->
      Forall (fun face =>
                pose_ready face /\
                exists v, face_body solvePnP Rodrigues RQDecomp3x3 w h face = Ok v) fs) /\
  (forall (g : Globals) (h w : Z) (fs : list Face),
      Exists (fun face => (length face <= 291)%nat) fs ->
      exists e, step g (frame_of h w fs) = Raise e) /\
  observe (frame_step (toy_solvePnP true) toy_Rodrigues toy_RQDecomp3x3 five_samples
             (frame_of 480 640 [toy_face 0 100 100; toy_face 25 (-8) (-8)])) =
    Ok ({| head_abnormal := 1; gaze_abnormal := 1; printed := Some (1, 1) |},
        [8; -8; 8; -8; 8; -16 # 2]%Q) /\
  observe (frame_step (toy_solvePnP true) toy_Rodrigues toy_RQDecomp3x3 five_samples
             (frame_of 480 640 [toy_face 25 (-8) (-8); toy_face 0 100 100])) =
    Ok (no_signal, [8; -8; 8; -8; 8]%Q).
Proof.
  split; [|split; [|split; [|split; [|split; vm_compute; reflexivity]]]].
  - intros g h w fs last Hall. unfold frame_step, frame_of.
    cbn [multi_face_landmarks frame_h frame_w faces_of].
    replace (truthy (Some (fs ++ [last]))) with true by (now destruct fs).
    cbn [truthy].
    now rewrite (face_loop_last _ _ _ w h fs last (loop_vars g) (loop_vars g) Hall).
  - intros g h w fs last flags g' Hstep.
    destruct (step_classifies_last _ _ _ _ _ _ _ Hstep) as (v & Hb & Hv & Hcase).
    destruct (face_body_returns _ _ _ _ _ _ _ Hb) as [Hlm _].
    exists v. split; [exact Hb|]. split; [exact Hlm|]. split; [exact Hv|].
    unfold head_flag.
    destruct Hcase as [(Eh & -> & Hw) | (Eh & sample & Ha & Hw & Hd & Hh & _)];
      rewrite Eh.
    + split; [reflexivity|]. split; [auto | discriminate].
    + split; [exact Hh|]. split; [discriminate|]. intros _.
      exists sample. rewrite <- Hlm. auto.
  - intros g h w fs flags g'. unfold frame_step, frame_of.
    cbn [multi_face_landmarks frame_h frame_w faces_of].
    destruct fs as [|f fs]; [constructor|]. cbn [truthy].
    destruct (face_loop _ _ _ w h (f :: fs) (loop_vars g)) as [r|e] eqn:El;
      cbn [bind]; [|discriminate].
    intros _. apply face_loop_all_return in El.
    eapply Forall_impl; [|exact El]. intros face [v Hv].
    split; [|eauto]. now apply face_body_returns in Hv.
  - intros g h w fs Hex. unfold frame_step, frame_of.
    cbn [multi_face_landmarks frame_h frame_w faces_of].
    destruct fs as [|f fs]; [inversion Hex|]. cbn [truthy].
    destruct (face_loop_raise solvePnP Rodrigues RQDecomp3x3 w h (f :: fs)
                (loop_vars g) Hex) as [e ->].
    exists e. reflexivity.
Qed.

(** ** Persistence of the window *)

Lemma step_window_change (g : Globals) (f : Frame) (flags : Flags) (g' : Globals) :
  step g f = Ok (flags, g') ->
  (head_abnormal flags = 0 /\ gaze_sequence g' = gaze_sequence g) \/
  (head_abnormal flags = 1 /\
   exists s, gaze_sequence g' = store_sequence (gaze_sequence g) s).
Proof.
  intros Hstep. apply frame_step_outcome in Hstep.
  destruct Hstep; cbn [gaze_sequence head_abnormal no_signal]; eauto.
Qed.

(** Over a session the window changes by storing samples and in no other
    way, one sample per frame that ended with [head_abnormal] = 1. *)
Lemma session_window (frames : list Frame) : forall g flags g',
  session g frames = Ok (flags, g') ->
  exists samples : list Q,
    gaze_sequence g' = fold_left store_sequence samples (gaze_sequence g) /\
    length samples = length (filter (fun fl => head_abnormal fl =? 1) flags).
Proof.
  induction frames as [|f frames IH]; intros g flags g'; cbn [run].
  - intros [= <- <-]. exists []. split; reflexivity.
  - destruct (step g f) as [[fl g1]|e] eqn:Es; cbn [bind fst snd]; [|discriminate].
    destruct (session g1 frames) as [[fls g2]|e] eqn:Er; cbn [bind fst snd]; [|discriminate].
    intros [= <- <-]. destruct (IH _ _ _ Er) as (samples & Hw & Hn).
    destruct (step_window_change _ _ _ _ Es) as [[Hh Hg]|[Hh [s Hg]]];
      cbn [filter]; rewrite Hh; cbn [Z.eqb Pos.eqb].
    + exists samples. rewrite <- Hg. auto.
    + exists (s :: samples). cbn [fold_left length]. rewrite <- Hg. auto.
Qed.

(** C10.  A frame either leaves the window as it was or stores one
    sample, which appends it and, on a window already holding
    [SEQUENCE_LENGTH] samples, drops the oldest one and no other; a
    non-empty window is never emptied.  Frames without a face and frames
    with a steady head leave the window untouched, so over a session the
    window is the result of storing one sample per head-abnormal frame
    and nothing else, and a window that triggers [gaze_abnormal] = 1 can
    hold samples of frames that were not consecutive. *)
Theorem gaze_window_persists :
  (forall (g : Globals) (f : Frame) (flags : Flags) (g' : Globals),
      step g f = Ok (flags, g') ->
      gaze_sequence g' = gaze_sequence g \/
      (head_abnormal flags = 1 /\ truthy (multi_face_landmarks f) = true /\
       exists s : Q,
         (len (gaze_sequence g) < SEQUENCE_LENGTH /\
          gaze_sequence g' = gaze_sequence g ++ [s]) \/
         (SEQUENCE_LENGTH <= len (gaze_sequence g) /\
          gaze_sequence g' = tl (gaze_sequence g) ++ [s]))) /\
  (forall (g : Globals) (f : Frame) (flags : Flags) (g' : Globals),
      step g f = Ok (flags, g') ->
      gaze_sequence g <> [] -> gaze_sequence g' <> []) /\
  (forall (frames : list Frame) (g : Globals) (flags : list Flags) (g' : Globals),
      session g frames = Ok (flags, g') ->
      exists samples : list Q,
        gaze_sequence g' = fold_left store_sequence samples (gaze_sequence g) /\
        length samples = length (filter (fun fl => head_abnormal fl =? 1) flags)) /\
  (x <- run (toy_solvePnP true) toy_Rodrigues toy_RQDecomp3x3 initial interrupted_session ;;
   Ok (map (fun fl => (head_abnormal fl, gaze_abnormal fl)) (fst x),
       gaze_sequence (snd x))) =
  Ok ([ (1, 0); (1, 0); (0, 0); (1, 0); (0, 0); (1, 0); (0, 0); (0, 0); (1, 0); (1, 1) ],
      [ 16 # 2; -16 # 2; 16 # 2; -16 # 2; 16 # 2; -16 # 2 ]%Q).
Proof.
  assert (Hone : forall (g : Globals) (f : Frame) (flags : Flags) (g' : Globals),
      step g f = Ok (flags, g') ->
      gaze_sequence g' = gaze_sequence g \/
      (head_abnormal flags = 1 /\ truthy (multi_face_landmarks f) = true /\
       exists s : Q,
         (len (gaze_sequence g) < SEQUENCE_LENGTH /\
          gaze_sequence g' = gaze_sequence g ++ [s]) \/
         (SEQUENCE_LENGTH <= len (gaze_sequence g) /\
          gaze_sequence g' = tl (gaze_sequence g) ++ [s]))).
  { intros g f flags g' Hstep. apply frame_step_outcome in Hstep.
    destruct Hstep as [Ht | v Ht El Eh | v sample flag Ht El Eh Ea Ed];
      cbn [gaze_sequence head_abnormal]; auto.
    right. split; [reflexivity|]. split; [exact Ht|]. exists sample.
    destruct (store_sequence_cases (gaze_sequence g) sample) as [[Hlt ->]|(Hge & -> & _)];
      auto. }
  split; [exact Hone|]. split; [|split].
  - intros g f flags g' Hstep Hne.
    destruct (Hone _ _ _ _ Hstep) as [-> | (_ & _ & s & [[_ ->]|[_ ->]])]; auto;
      intros Habs; apply app_eq_nil in Habs as [_ Habs]; discriminate.
  - intros frames g flags g'. apply session_window.
  - vm_compute. reflexivity.
Qed.

End Claims.

(** * Concrete runs *)

(** The oscillating window is full, and a session holding five samples
    that sees a turned head with the irises 8 px to the left fills it. *)
Lemma gaze_abnormal_iff_both_extremes_witness :
  (len [8; -8; 8; -8; 8; -8]%Q = SEQUENCE_LENGTH /\
   (detect_oscillation [8; -8; 8; -8; 8; -8]%Q = Ok 1 <->
    (exists a, In a [8; -8; 8; -8; 8; -8]%Q /\ (6 < a)%Q) /\
    (exists b, In b [8; -8; 8; -8; 8; -8]%Q /\ (b < -6)%Q))) /\
  exists flags g',
    frame_step (toy_solvePnP true) toy_Rodrigues toy_RQDecomp3x3
      five_samples (turned (-8)) = Ok (flags, g') /\
    head_abnormal flags = 1 /\
    len (gaze_sequence g') = SEQUENCE_LENGTH /\
    (gaze_abnormal flags = 1 <->
     (exists a, In a (gaze_sequence g') /\ (6 < a)%Q) /\
     (exists b, In b (gaze_sequence g') /\ (b < -6)%Q)).
Proof.
  pose proof (gaze_abnormal_iff_both_extremes
                (toy_solvePnP true) toy_Rodrigues toy_RQDecomp3x3) as [Hwin [Hframe _]].
  split.
  - split; [reflexivity|].
    destruct (Hwin [8; -8; 8; -8; 8; -8]%Q eq_refl)
      as (hi & lo & _ & _ & _ & _ & _ & _ & H).
    exact H.
  - destruct (frame_step (toy_solvePnP true) toy_Rodrigues toy_RQDecomp3x3
                five_samples (turned (-8))) as [[flags g']|e] eqn:E;
      [|vm_compute in E; discriminate].
    exists flags, g'.
    assert (Hh : head_abnormal flags = 1)
      by (vm_compute in E; injection E as <- _; reflexivity).
    assert (Hl : len (gaze_sequence g') = SEQUENCE_LENGTH)
      by (vm_compute in E; injection E as _ <-; reflexivity).
    split; [reflexivity|]. split; [exact Hh|]. split; [exact Hl|].
    exact (Hframe five_samples (turned (-8)) flags g' E Hh Hl).
Defined.

(** A turned face on the empty window; a decomposition with the same yaw
    and another pitch and roll. *)
Lemma head_abnormal_yaw_threshold_witness :
  (head_flag (-15) = 1 /\ head_flag (99 # 10) = 0) /\
  (exists flags g' v,
      frame_step (toy_solvePnP true) toy_Rodrigues toy_RQDecomp3x3
        initial (turned 8) = Ok (flags, g') /\
      loop_vars g' = Some v /\ head_abnormal flags = head_flag (yaw v)) /\
  observe (frame_step (toy_solvePnP true) toy_Rodrigues toy_RQDecomp3x3_tilted
             five_samples (turned (-8))) =
  observe (frame_step (toy_solvePnP true) toy_Rodrigues toy_RQDecomp3x3
             five_samples (turned (-8))).
Proof.
  pose proof (head_abnormal_yaw_threshold
                (toy_solvePnP true) toy_Rodrigues toy_RQDecomp3x3)
    as (Hrule & Hframe & _ & Hyaw & _).
  split; [|split].
  - split.
    + apply (proj1 (Hrule (-15)%Q)). reflexivity.
    + apply (proj2 (Hrule (99 # 10))). intros H. vm_compute in H. discriminate.
  - destruct (frame_step (toy_solvePnP true) toy_Rodrigues toy_RQDecomp3x3
                initial (turned 8)) as [[flags g']|e] eqn:E;
      [|vm_compute in E; discriminate].
    destruct (Hframe initial (turned 8) flags g' E eq_refl) as (v & Hv & Hh).
    exists flags, g', v. split; [reflexivity|]. split; assumption.
  - apply (Hyaw toy_RQDecomp3x3_tilted five_samples (turned (-8))).
    intros rmat. reflexivity.
Defined.



(** A full window takes a seventh sample; the interrupted session ends
    within the bound. *)
Lemma gaze_window_bounded_fifo_witness :
  len (store_sequence [1; 2; 3; 4; 5; 6]%Q 7%Q) <= SEQUENCE_LENGTH /\
  exists flags g,
    run (toy_solvePnP true) toy_Rodrigues toy_RQDecomp3x3
      initial interrupted_session = Ok (flags, g) /\
    len (gaze_sequence g) <= SEQUENCE_LENGTH.
Proof.
  pose proof (gaze_window_bounded_fifo
                (toy_solvePnP true) toy_Rodrigues toy_RQDecomp3x3)
    as (Hstore & Hrun & _).
  split.
  - apply Hstore. vm_compute. discriminate.
  - destruct (run (toy_solvePnP true) toy_Rodrigues toy_RQDecomp3x3
                initial interrupted_session) as [[flags g]|e] eqn:E;
      [|vm_compute in E; discriminate].
    exists flags, g. split; [reflexivity|]. exact (Hrun interrupted_session flags g E).
Defined.

(** Three large samples of both signs; the first frame of a session. *)
Lemma cold_start_reports_zero_witness :
  detect_oscillation [100; -100; 100]%Q = Ok 0 /\
  exists flags g',
    frame_step (toy_solvePnP true) toy_Rodrigues toy_RQDecomp3x3
      initial (turned 100) = Ok (flags, g') /\
    len (gaze_sequence g') < SEQUENCE_LENGTH /\
    gaze_abnormal flags = 0.
Proof.
  pose proof (cold_start_reports_zero
                (toy_solvePnP true) toy_Rodrigues toy_RQDecomp3x3) as [Hdet Hframe].
  split.
  - apply Hdet. reflexivity.
  - destruct (frame_step (toy_solvePnP true) toy_Rodrigues toy_RQDecomp3x3
                initial (turned 100)) as [[flags g']|e] eqn:E;
      [|vm_compute in E; discriminate].
    assert (Hl : len (gaze_sequence g') < SEQUENCE_LENGTH)
      by (vm_compute in E; injection E as _ <-; reflexivity).
    exists flags, g'. split; [reflexivity|]. split; [exact Hl|].
    exact (Hframe initial (turned 100) flags g' E Hl).
Defined.

(** A steady head in front of a window one sample short of an
    oscillation. *)
Lemma gaze_analysis_gated_on_head_witness :
  exists flags g',
    frame_step (toy_solvePnP true) toy_Rodrigues toy_RQDecomp3x3
      five_samples (straight (-8)) = Ok (flags, g') /\
    head_abnormal flags = 0 /\ gaze_abnormal flags = 0 /\
    gaze_sequence g' = gaze_sequence five_samples /\ printed flags = None.
Proof.
  destruct (frame_step (toy_solvePnP true) toy_Rodrigues toy_RQDecomp3x3
              five_samples (straight (-8))) as [[flags g']|e] eqn:E;
    [|vm_compute in E; discriminate].
  destruct (proj1 (gaze_analysis_gated_on_head
                     (toy_solvePnP true) toy_Rodrigues toy_RQDecomp3x3)
              five_samples (straight (-8)) flags g' E) as (_ & Hzero & _).
  assert (Hh : head_abnormal flags = 0)
    by (vm_compute in E; injection E as <- _; reflexivity).
  exists flags, g'. split; [reflexivity|]. split; [exact Hh|]. exact (Hzero Hh).
Defined.

(** No face in front of a window of five samples. *)
Lemma no_face_no_signal_witness :
  frame_step (toy_solvePnP true) toy_Rodrigues toy_RQDecomp3x3 five_samples no_face =
  Ok ({| head_abnormal := 0; gaze_abnormal := 0; printed := None |}, five_samples).
Proof.
  apply (no_face_no_signal (toy_solvePnP true) toy_Rodrigues toy_RQDecomp3x3
           five_samples no_face).
  left. reflexivity.
Defined.

(** A steady face followed by a turned one in front of a window of five
    samples: the frame ends as with the turned face alone, flags the
    head, stores the sample of the turned face and flags the gaze.  An
    empty landmark list before a good face: the frame raises. *)
Lemma last_face_wins_witness :
  frame_step (toy_solvePnP true) toy_Rodrigues toy_RQDecomp3x3 five_samples
    (frame_of 480 640 ([toy_face 0 100 100] ++ [toy_face 25 (-8) (-8)])) =
  frame_step (toy_solvePnP true) toy_Rodrigues toy_RQDecomp3x3 five_samples
    (frame_of 480 640 [toy_face 25 (-8) (-8)]) /\
  (exists flags g' v sample,
      frame_step (toy_solvePnP true) toy_Rodrigues toy_RQDecomp3x3 five_samples
        (frame_of 480 640 ([toy_face 0 100 100] ++ [toy_face 25 (-8) (-8)])) =
      Ok (flags, g') /\
      face_body (toy_solvePnP true) toy_Rodrigues toy_RQDecomp3x3
        640 480 (toy_face 25 (-8) (-8)) = Ok v /\
      head_abnormal flags = 1 /\
      avg_offset (to_pixels 640 480 (toy_face 25 (-8) (-8))) = Ok sample /\
      gaze_sequence g' = store_sequence (gaze_sequence five_samples) sample /\
      detect_oscillation (gaze_sequence g') = Ok (gaze_abnormal flags)) /\
  exists e,
    frame_step (toy_solvePnP true) toy_Rodrigues toy_RQDecomp3x3 five_samples
      (frame_of 480 640 [[]; toy_face 0 0 0]) = Raise e.
Proof.
  pose proof (last_face_wins (toy_solvePnP true) toy_Rodrigues toy_RQDecomp3x3)
    as (Hlast & Hfeeds & _ & Hraise & _).
  split; [|split].
  - apply Hlast. constructor; [|constructor].
    destruct (face_body (toy_solvePnP true) toy_Rodrigues toy_RQDecomp3x3
                640 480 (toy_face 0 100 100)) as [v|e] eqn:E;
      [eauto | vm_compute in E; discriminate].
  - destruct (frame_step (toy_solvePnP true) toy_Rodrigues toy_RQDecomp3x3 five_samples
                (frame_of 480 640 ([toy_face 0 100 100] ++ [toy_face 25 (-8) (-8)])))
      as [[flags g']|e] eqn:E; [|vm_compute in E; discriminate].
    destruct (Hfeeds five_samples 480 640 [toy_face 0 100 100] (toy_face 25 (-8) (-8))
                flags g' E) as (v & Hb & _ & _ & Hh & _ & Hturned).
    assert (Eh : head_test (yaw v) = true)
      by (vm_compute in Hb; injection Hb as <-; reflexivity).
    destruct (Hturned Eh) as (sample & Ha & Hw & Hd).
    exists flags, g', v, sample. split; [reflexivity|]. split; [exact Hb|].
    split; [|auto]. rewrite Hh. unfold head_flag. now rewrite Eh.
  - apply Hraise. constructor. cbn [length]. lia.
Defined.

(** The frame that fills the window, and the interrupted session. *)
Lemma gaze_window_persists_witness :
  (exists flags g',
      frame_step (toy_solvePnP true) toy_Rodrigues toy_RQDecomp3x3
        five_samples (turned (-8)) = Ok (flags, g') /\
      gaze_sequence g' <> []) /\
  exists flags g' samples,
    run (toy_solvePnP true) toy_Rodrigues toy_RQDecomp3x3
      initial interrupted_session = Ok (flags, g') /\
    gaze_sequence g' = fold_left store_sequence samples (gaze_sequence initial) /\
    length samples = length (filter (fun fl => head_abnormal fl =? 1) flags).
Proof.
  pose proof (gaze_window_persists (toy_solvePnP true) toy_Rodrigues toy_RQDecomp3x3)
    as (_ & Hkeep & Hrun & _).
  split.
  - destruct (frame_step (toy_solvePnP true) toy_Rodrigues toy_RQDecomp3x3
                five_samples (turned (-8))) as [[flags g']|e] eqn:E;
      [|vm_compute in E; discriminate].
    exists flags, g'. split; [reflexivity|].
    apply (Hkeep five_samples (turned (-8)) flags g' E). discriminate.
  - destruct (run (toy_solvePnP true) toy_Rodrigues toy_RQDecomp3x3
                initial interrupted_session) as [[flags g']|e] eqn:E;
      [|vm_compute in E; discriminate].
    destruct (Hrun interrupted_session initial flags g' E) as (samples & Hw & Hn).
    exists flags, g', samples. split; [reflexivity|]. split; assumption.
Defined.

(** * Further properties of the script *)

(** ** Pixel coordinates (line 170) *)

Lemma py_int_small_product (x : Q) (w : Z) :
  (0 <= x <= 1)%Q -> 0 <= w -> 0 <= py_int (x * inject_Z w) <= w.
Proof.
  destruct x as [n d]. unfold Qle, py_int. cbn [Qnum Qden Qmult inject_Z].
  intros [H0 H1] Hw. rewrite Pos2Z.inj_mul.
  rewrite Z.quot_div_nonneg by nia.
  split.
  - apply Z.div_pos; nia.
  - apply Z.div_le_upper_bound; nia.
Qed.

(** A landmark set inside the unit square lands inside the closed frame
    rectangle, one pixel for each landmark: every coordinate is between 0
    and the frame size, the size itself included. *)
Theorem to_pixels_in_frame (w h : Z) (face : Face) :
  0 <= w -> 0 <= h ->
  Forall in_unit_square face ->
  length (to_pixels w h face) = length face /\
  Forall (in_frame w h) (to_pixels w h face).
Proof.
  intros Hw Hh Hall. split; [apply to_pixels_length|].
  unfold to_pixels. apply Forall_map.
  eapply Forall_impl; [|exact Hall].
  intros l [Hx Hy]. unfold in_frame. cbn [fst snd].
  split; now apply py_int_small_product.
Qed.

(** ** Eye centres (lines 230-238) *)

Lemma midpoint_quot (a b : Z) : midpoint a b = Z.quot (a + b) 2.
Proof.
  unfold midpoint, py_int, Qdiv, Qmult, Qinv, inject_Z. cbn [Qnum Qden].
  now rewrite Z.mul_1_r.
Qed.

(** The centre coordinate [int((a + b) / 2)] is the integer quotient of
    the sum truncated toward zero; it lies between the two corners, does
    not depend on their order, and is the floor of the mean when the sum
    is not negative. *)
Theorem midpoint_between (a b : Z) :
  midpoint a b = Z.quot (a + b) 2 /\
  Z.min a b <= midpoint a b <= Z.max a b /\
  midpoint a b = midpoint b a /\
  (0 <= a + b -> midpoint a b = (a + b) / 2).
Proof.
  rewrite !midpoint_quot. split; [reflexivity|]. split; [|split].
  - pose proof (Z.quot_rem' (a + b) 2) as Hqr.
    pose proof (Z.rem_bound_abs (a + b) 2 ltac:(lia)) as Hb.
    pose proof (Z.rem_sign_nz (a + b) 2 ltac:(lia)) as Hs.
    destruct (Z.eq_dec (Z.rem (a + b) 2) 0) as [Hz|Hnz].
    + lia.
    + specialize (Hs Hnz). lia.
  - now rewrite (Z.add_comm b a).
  - intros Hs. apply Z.quot_div_nonneg; lia.
Qed.

(** ** The gaze sample (lines 221-248) *)

Lemma getitem_map {A B : Type} (f : A -> B) (l : list A) (i : nat) :
  getitem (map f l) i = (a <- getitem l i ;; Ok (f a)).
Proof.
  unfold getitem. rewrite nth_error_map. now destruct (nth_error l i).
Qed.

Lemma avg_offset_abscissas (l : list Point) :
  avg_offset l = offset_of_abscissas (map fst l).
Proof.
  unfold avg_offset, offset_of_abscissas. rewrite !getitem_map.
  unfold Point in *.
  destruct (getitem l 468) as [p1|e]; cbn [bind]; [|reflexivity].
  destruct (getitem l 473) as [p2|e]; cbn [bind]; [|reflexivity].
  destruct (getitem l 33) as [p3|e]; cbn [bind]; [|reflexivity].
  destruct (getitem l 133) as [p4|e]; cbn [bind]; [|reflexivity].
  destruct (getitem l 362) as [p5|e]; cbn [bind]; [|reflexivity].
  destruct (getitem l 263) as [p6|e]; cbn [bind]; [|reflexivity].
  unfold offset_formula, eye_center. cbn [fst snd]. now rewrite !midpoint_quot.
Qed.

(** The gaze sample is a function of the abscissas of the landmarks
    alone: two landmark lists with the same abscissas give the same
    sample, or raise alike, whatever their ordinates. *)
Theorem avg_offset_ignores_ordinates (l l' : list Point) :
  map fst l = map fst l' -> avg_offset l = avg_offset l'.
Proof.
  intros Hx. now rewrite !avg_offset_abscissas, Hx.
Qed.

Lemma getitem_In {A : Type} (l : list A) (i : nat) (a : A) :
  getitem l i = Ok a -> In a l.
Proof.
  unfold getitem. destruct (nth_error l i) as [x|] eqn:E; [|discriminate].
  intros [= <-]. eapply nth_error_In, E.
Qed.

Lemma quot_shift (n dx : Z) :
  0 <= n -> 0 <= n + 2 * dx -> Z.quot (n + 2 * dx) 2 = Z.quot n 2 + dx.
Proof.
  intros Hn Hs. rewrite !Z.quot_div_nonneg by lia.
  replace (n + 2 * dx) with (n + dx * 2) by lia.
  now rewrite Z.div_add by lia.
Qed.

(** Moving every landmark the same number of pixels to the left or to the
    right leaves the gaze sample unchanged, as long as the abscissas are
    not negative before and after the move. *)
Theorem avg_offset_shift_invariant (dx : Z) (l : list Point) :
  Forall (fun p => 0 <= fst p /\ 0 <= fst p + dx) l ->
  avg_offset (shift_right dx l) = avg_offset l.
Proof.
  intros Hall. rewrite !avg_offset_abscissas. unfold shift_right.
  rewrite map_map. cbn [fst].
  rewrite <- (map_map fst (fun x => x + dx)).
  assert (Hxs : Forall (fun x => 0 <= x /\ 0 <= x + dx) (map fst l))
    by (apply Forall_map; exact Hall).
  rewrite Forall_forall in Hxs.
  generalize dependent (map fst l). intros xs Hxs.
  unfold offset_of_abscissas. rewrite !getitem_map.
  destruct (getitem xs 468) as [x1|e] eqn:E1; cbn [bind]; [|reflexivity].
  destruct (getitem xs 473) as [x2|e] eqn:E2; cbn [bind]; [|reflexivity].
  destruct (getitem xs 33) as [x3|e] eqn:E3; cbn [bind]; [|reflexivity].
  destruct (getitem xs 133) as [x4|e] eqn:E4; cbn [bind]; [|reflexivity].
  destruct (getitem xs 362) as [x5|e] eqn:E5; cbn [bind]; [|reflexivity].
  destruct (getitem xs 263) as [x6|e] eqn:E6; cbn [bind]; [|reflexivity].
  pose proof (Hxs _ (getitem_In _ _ _ E3)) as H3.
  pose proof (Hxs _ (getitem_In _ _ _ E4)) as H4.
  pose proof (Hxs _ (getitem_In _ _ _ E5)) as H5.
  pose proof (Hxs _ (getitem_In _ _ _ E6)) as H6.
  unfold offset_formula. do 3 f_equal.
  replace (x3 + dx + (x4 + dx)) with (x3 + x4 + 2 * dx) by lia.
  replace (x5 + dx + (x6 + dx)) with (x5 + x6 + 2 * dx) by lia.
  rewrite !quot_shift by lia. lia.
Qed.

Lemma avg_offset_raise (l : list Point) :
  (length l <= 473)%nat -> avg_offset l = Raise IndexError.
Proof.
  intros H. unfold avg_offset.
  destruct (getitem_cases l 468) as [[a1 ->]| ->]; cbn [bind]; [|reflexivity].
  now rewrite getitem_raise.
Qed.

(** The pose indices can be read exactly from a list of at least 292
    landmarks and the gaze indices exactly from a list of at least 474;
    a shorter list raises IndexError and nothing else.  The image points
    read are six rows of two numbers. *)
Theorem landmark_reads_exact (l : list Point) :
  ((exists pts, image_points l = Ok pts) <-> (292 <= length l)%nat) /\
  (image_points l = Raise IndexError <-> (length l <= 291)%nat) /\
  ((exists sample, avg_offset l = Ok sample) <-> (474 <= length l)%nat) /\
  (avg_offset l = Raise IndexError <-> (length l <= 473)%nat) /\
  (forall pts, image_points l = Ok pts ->
               length pts = 6%nat /\ Forall (fun row => length row = 2%nat) pts).
Proof.
  split; [|split; [|split; [|split]]].
  - split; [|apply image_points_ok].
    intros [pts Hp]. destruct (le_lt_dec (length l) 291) as [Hs|Hl]; [|lia].
    rewrite image_points_raise in Hp by exact Hs. discriminate.
  - split; [|apply image_points_raise].
    intros Hr. destruct (le_lt_dec (length l) 291) as [Hs|Hl]; [exact Hs|].
    destruct (image_points_ok l) as [pts Hp]; [lia|]. congruence.
  - split; [|apply avg_offset_ok].
    intros [s Hs]. destruct (le_lt_dec (length l) 473) as [Hsh|Hl]; [|lia].
    rewrite avg_offset_raise in Hs by exact Hsh. discriminate.
  - split; [|apply avg_offset_raise].
    intros Hr. destruct (le_lt_dec (length l) 473) as [Hs|Hl]; [exact Hs|].
    destruct (avg_offset_ok l) as [s Hs]; [lia|]. congruence.
  - intros pts. unfold image_points.
    destruct (getitem l 1); cbn [bind]; [|discriminate].
    destruct (getitem l 152); cbn [bind]; [|discriminate].
    destruct (getitem l 33); cbn [bind]; [|discriminate].
    destruct (getitem l 263); cbn [bind]; [|discriminate].
    destruct (getitem l 61); cbn [bind]; [|discriminate].
    destruct (getitem l 291); cbn [bind]; [|discriminate].
    intros [= <-]. split; [reflexivity|]. repeat constructor.
Qed.


(** ** The oscillation test (lines 257-259) *)

Lemma detect_full_iff (gs : list Q) :
  len gs = SEQUENCE_LENGTH ->
  (detect_oscillation gs = Ok 1 <->
   (exists a, In a gs /\ (6 < a)%Q) /\ (exists b, In b gs /\ (b < -6)%Q)).
Proof.
  intros Hlen.
  destruct (py_max_total gs (full_nonempty gs Hlen)) as [hi Hhi].
  destruct (py_min_total gs (full_nonempty gs Hlen)) as [lo Hlo].
  rewrite (detect_full gs hi lo Hlen Hhi Hlo).
  rewrite <- (py_max_exceeds gs hi 6 Hhi), <- (py_min_below gs lo (-6) Hlo).
  change 6%Q with (inject_Z GAZE_THRESHOLD).
  change (-6)%Q with (inject_Z (- GAZE_THRESHOLD)).
  rewrite <- !Qltb_lt.
  destruct (Qltb (inject_Z GAZE_THRESHOLD) hi), (Qltb lo (inject_Z (- GAZE_THRESHOLD)));
    cbn [andb]; intuition congruence.
Qed.

(** Two windows of the same length with an excursion on the same sides
    get the same verdict. *)
Lemma detect_oscillation_ext (gs gs' : list Q) :
  len gs = len gs' ->
  ((exists a, In a gs /\ (6 < a)%Q) <-> (exists a, In a gs' /\ (6 < a)%Q)) ->
  ((exists b, In b gs /\ (b < -6)%Q) <-> (exists b, In b gs' /\ (b < -6)%Q)) ->
  detect_oscillation gs = detect_oscillation gs'.
Proof.
  intros Hlen Hup Hdown.
  destruct (Z.eq_dec (len gs) SEQUENCE_LENGTH) as [Hfull|Hshort].
  - assert (Hfull' : len gs' = SEQUENCE_LENGTH) by congruence.
    pose proof (detect_full_iff gs Hfull) as H1.
    pose proof (detect_full_iff gs' Hfull') as H2.
    rewrite Hup, Hdown, <- H2 in H1.
    destruct (detect_oscillation_total gs) as [E|E],
             (detect_oscillation_total gs') as [E'|E']; rewrite E, E' in *;
      try reflexivity.
    + destruct H1 as [_ H1]. specialize (H1 eq_refl). discriminate.
    + destruct H1 as [H1 _]. specialize (H1 eq_refl). discriminate.
  - rewrite !detect_short; congruence.
Qed.

(** The verdict on a window does not depend on the order of its samples:
    rearranging the window leaves it unchanged. *)
Theorem detect_oscillation_permutation (gs gs' : list Q) :
  Permutation gs gs' -> detect_oscillation gs = detect_oscillation gs'.
Proof.
  intros Hp. apply detect_oscillation_ext.
  - unfold len. now rewrite (Permutation_length Hp).
  - split; intros (a & Ha & Hlt); exists a; split; auto.
    + eapply Permutation_in; eauto.
    + eapply Permutation_in; [apply Permutation_sym|]; eauto.
  - split; intros (a & Ha & Hlt); exists a; split; auto.
    + eapply Permutation_in; eauto.
    + eapply Permutation_in; [apply Permutation_sym|]; eauto.
Qed.

(** The test has no preferred side: the mirrored window, every sample
    negated, gets the same verdict. *)
Theorem detect_oscillation_mirror (gs : list Q) :
  detect_oscillation (map Qopp gs) = detect_oscillation gs.
Proof.
  assert (Hflip : forall (P Q' : Q -> Prop),
             (forall x, P (- x)%Q <-> Q' x) ->
             ((exists a, In a (map Qopp gs) /\ P a) <-> (exists b, In b gs /\ Q' b))).
  { intros P Q' HPQ. split.
    - intros (a & Ha & HP). apply in_map_iff in Ha as (b & <- & Hb).
      exists b. split; [exact Hb | now apply HPQ].
    - intros (b & Hb & HQ). exists (- b)%Q. split; [now apply in_map | now apply HPQ]. }
  destruct (Z.eq_dec (len gs) SEQUENCE_LENGTH) as [Hfull|Hshort].
  - assert (Hfull' : len (map Qopp gs) = SEQUENCE_LENGTH)
      by (unfold len in *; now rewrite length_map).
    pose proof (detect_full_iff gs Hfull) as H1.
    pose proof (detect_full_iff (map Qopp gs) Hfull') as H2.
    rewrite (Hflip (fun a => 6 < a)%Q (fun b => b < -6)%Q) in H2
      by (intros x; split; intros H; lra).
    rewrite (Hflip (fun a => a < -6)%Q (fun b => 6 < b)%Q) in H2
      by (intros x; split; intros H; lra).
    destruct (detect_oscillation_total gs) as [E|E],
             (detect_oscillation_total (map Qopp gs)) as [E'|E']; rewrite E, E' in *;
      try reflexivity.
    + exfalso. assert (Hc : @Ok Z 0 = Ok 1) by (apply H1; apply and_comm, H2; reflexivity).
      discriminate.
    + exfalso. assert (Hc : @Ok Z 0 = Ok 1) by (apply H2; apply and_comm, H1; reflexivity).
      discriminate.
  - rewrite !detect_short; [reflexivity|exact Hshort|].
    unfold len in *. now rewrite length_map.
Qed.

(** However far the samples go, a window that stays on one side of a
    threshold is not flagged: no sample below -6, or no sample above 6,
    gives 0. *)
Theorem one_sided_drift_not_flagged (gs : list Q) :
  (forall x, In x gs -> (-6 <= x)%Q) \/ (forall x, In x gs -> (x <= 6)%Q) ->
  detect_oscillation gs = Ok 0.
Proof.
  intros Hside.
  destruct (Z.eq_dec (len gs) SEQUENCE_LENGTH) as [Hfull|Hshort];
    [|now apply detect_short].
  destruct (detect_oscillation_total gs) as [E|E]; [exact E|].
  exfalso. apply (detect_full_iff gs Hfull) in E as [(a & Ha & Hhi) (b & Hb & Hlo)].
  destruct Hside as [Hs|Hs].
  - specialize (Hs b Hb). lra.
  - specialize (Hs a Ha). lra.
Qed.

(** Larger swings are never less abnormal: a flagged window stays flagged
    when every sample is multiplied by the same factor k >= 1. *)
Theorem amplified_window_stays_flagged (k : Q) (gs : list Q) :
  (1 <= k)%Q ->
  detect_oscillation gs = Ok 1 ->
  detect_oscillation (map (Qmult k) gs) = Ok 1.
Proof.
  intros Hk Hflag.
  assert (Hfull : len gs = SEQUENCE_LENGTH).
  { destruct (Z.eq_dec (len gs) SEQUENCE_LENGTH) as [H|H]; [exact H|].
    rewrite detect_short in Hflag by exact H. discriminate. }
  apply (detect_full_iff gs Hfull) in Hflag as [(a & Ha & Hhi) (b & Hb & Hlo)].
  apply detect_full_iff; [unfold len in *; now rewrite length_map|].
  split.
  - exists (k * a)%Q. split; [now apply in_map|]. nra.
  - exists (k * b)%Q. split; [now apply in_map|]. nra.
Qed.

(** ** The head test (line 215) *)

Lemma head_test_opp (y : Q) : head_test (- y) = head_test y.
Proof.
  unfold head_test. destruct y as [n d]. unfold Qopp, Qabs. cbn [Qnum Qden].
  now rewrite Z.abs_opp.
Qed.

(** The head flag treats left and right turns alike, never falls when the
    turn grows, and is 0 up to and including 10 degrees either way. *)
Theorem head_flag_symmetric_monotone :
  (forall y : Q, head_flag (- y) = head_flag y) /\
  (forall y1 y2 : Q, (Qabs y1 <= Qabs y2)%Q -> head_flag y1 <= head_flag y2) /\
  (forall y : Q, (-10 <= y <= 10)%Q -> head_flag y = 0).
Proof.
  split; [|split].
  - intros y. unfold head_flag. now rewrite head_test_opp.
  - intros y1 y2 Hle. unfold head_flag, head_test.
    destruct (Qltb 10 (Qabs y1)) eqn:E1, (Qltb 10 (Qabs y2)) eqn:E2; try lia.
    apply Qltb_lt in E1. apply Qltb_ge in E2. lra.
  - intros y [Hlo Hhi]. apply (proj2 (head_flag_rule y)).
    intros Habs.
    assert (Hle : (Qabs y <= 10)%Q) by (apply Qabs_Qle_condition; split; assumption).
    lra.
Qed.

(** ** Exceptions of a frame *)

Lemma image_points_exn (l : list Point) (e : exn) :
  image_points l = Raise e -> e = IndexError.
Proof.
  destruct (le_lt_dec (length l) 291) as [Hs|Hl].
  - rewrite image_points_raise by exact Hs. congruence.
  - destruct (image_points_ok l) as [pts ->]; [lia | discriminate].
Qed.

Lemma avg_offset_exn (l : list Point) (e : exn) :
  avg_offset l = Raise e -> e = IndexError.
Proof.
  destruct (le_lt_dec (length l) 473) as [Hs|Hl].
  - rewrite avg_offset_raise by exact Hs. congruence.
  - destruct (avg_offset_ok l) as [s ->]; [lia | discriminate].
Qed.

Section Further.

Variable solvePnP :
  ndarray -> ndarray -> ndarray -> ndarray -> option (bool * ndarray * ndarray).
Variable Rodrigues : ndarray -> option ndarray.
Variable RQDecomp3x3 : ndarray -> option (Q * Q * Q).

Local Notation body := (face_body solvePnP Rodrigues RQDecomp3x3).
Local Notation loop := (face_loop solvePnP Rodrigues RQDecomp3x3).
Local Notation step := (frame_step solvePnP Rodrigues RQDecomp3x3).
Local Notation session := (run solvePnP Rodrigues RQDecomp3x3).

Lemma face_body_exn (w h : Z) (face : Face) (e : exn) :
  body w h face = Raise e -> e = IndexError \/ e = cv2_error.
Proof.
  unfold face_body.
  destruct (image_points (to_pixels w h face)) as [pts|e'] eqn:E; cbn [bind].
  - destruct (solvePnP _ _ _ _) as [[[ok rvec] tvec]|]; cbn [cv bind];
      [|intros [= <-]; now right].
    destruct (Rodrigues rvec) as [rmat|]; cbn [cv bind]; [|intros [= <-]; now right].
    destruct (RQDecomp3x3 rmat) as [[[a0 a1] a2]|]; cbn [cv bind];
      [discriminate | intros [= <-]; now right].
  - intros [= <-]. left. eapply image_points_exn, E.
Qed.

(** The body raises in two ways: IndexError on a face with fewer than
    292 landmarks, or the error of an OpenCV call on the image points of
    a longer one. *)
Lemma face_body_raises (w h : Z) (face : Face) (e : exn) :
  body w h face = Raise e <->
  ((length face <= 291)%nat /\ e = IndexError) \/
  (exists pts, image_points (to_pixels w h face) = Ok pts /\
               solved_pose solvePnP Rodrigues RQDecomp3x3 pts (camera_matrix w h)
               = Raise e).
Proof.
  rewrite face_body_pose.
  destruct (le_lt_dec (length face) 291) as [Hs|Hl].
  - rewrite image_points_raise by (now rewrite to_pixels_length). cbn [bind]. split.
    + intros [= <-]. left. auto.
    + intros [[_ ->] | (pts & Hp & _)]; [reflexivity | discriminate].
  - destruct (image_points_ok (to_pixels w h face)) as [pts Hp];
      [rewrite to_pixels_length; lia|].
    rewrite Hp. cbn [bind].
    destruct (solved_pose _ _ _ _ _) as [pose|e'] eqn:Es; cbn [bind]; split.
    + discriminate.
    + intros [[Hshort _] | (pts' & [= <-] & Hr)]; [lia | congruence].
    + intros [= <-]. right. eauto.
    + intros [[Hshort _] | (pts' & [= <-] & Hr)]; [lia | congruence].
Qed.

(** The loop raises exactly the error of the first face on which the
    body raises. *)
Lemma face_loop_raises (w h : Z) (fs : list Face) : forall vars e,
  loop w h fs vars = Raise e <->
  exists pre face post,
    fs = pre ++ face :: post /\
    Forall (fun f => exists v, body w h f = Ok v) pre /\
    body w h face = Raise e.
Proof.
  induction fs as [|f fs IH]; intros vars e; cbn [face_loop].
  - split; [discriminate|]. intros (pre & face & post & Heq & _).
    destruct pre; discriminate.
  - destruct (body w h f) as [v|e'] eqn:Eb; cbn [bind].
    + rewrite IH. split.
      * intros (pre & face & post & -> & Hpre & Hr).
        exists (f :: pre), face, post. split; [reflexivity|]. split; [|exact Hr].
        constructor; eauto.
      * intros (pre & face & post & Heq & Hpre & Hr).
        destruct pre as [|p pre]; cbn [app] in Heq; injection Heq as <- ->.
        -- congruence.
        -- inversion Hpre; subst. eauto 6.
    + split.
      * intros [= <-]. exists [], f, fs. split; [reflexivity|]. split; [constructor|exact Eb].
      * intros (pre & face & post & Heq & Hpre & Hr).
        destruct pre as [|p pre]; cbn [app] in Heq; injection Heq as <- ->.
        -- congruence.
        -- inversion Hpre as [|? ? [v Hv] _]; subst. congruence.
Qed.

Lemma face_loop_exn (w h : Z) (fs : list Face) (vars : option LoopVars) (e : exn) :
  loop w h fs vars = Raise e -> e = IndexError \/ e = cv2_error.
Proof.
  intros Hl. apply face_loop_raises in Hl as (pre & face & post & _ & _ & Hr).
  eapply face_body_exn, Hr.
Qed.

(** A frame raises IndexError or the error of an OpenCV call and nothing
    else: the names read after the loop are always bound when they are
    read, and [max] and [min] never see an empty window.  When the OpenCV
    calls return on the image points of every face of the frame, the
    only exception left is IndexError. *)
Theorem frame_raises_only_IndexError (g : Globals) (f : Frame) (e : exn) :
  step g f = Raise e ->
  (e = IndexError \/ e = cv2_error) /\
  ((forall face pts,
       In face (faces_of (multi_face_landmarks f)) ->
       image_points (to_pixels (frame_w f) (frame_h f) face) = Ok pts ->
       exists pose, solved_pose solvePnP Rodrigues RQDecomp3x3
                      pts (camera_matrix (frame_w f) (frame_h f)) = Ok pose) ->
   e = IndexError).
Proof.
  unfold frame_step.
  destruct (truthy (multi_face_landmarks f)) eqn:Ht; [|discriminate].
  destruct (loop _ _ _ _) as [vars|e'] eqn:El; cbn [bind].
  - destruct (face_loop_binds _ _ _ _ _ _ _ _ (truthy_faces _ Ht) El) as [v ->].
    unfold after_loop. cbn [bind].
    destruct (head_test (yaw v)); [|discriminate].
    destruct (avg_offset (landmarks v)) as [sample|e'] eqn:Ea; cbn [bind].
    + destruct (detect_oscillation_total (store_sequence (gaze_sequence g) sample))
        as [-> | ->]; discriminate.
    + intros [= <-]. apply avg_offset_exn in Ea. auto.
  - intros [= <-]. split; [eapply face_loop_exn, El|].
    intros Hcv. apply face_loop_raises in El as (pre & face & post & Heq & _ & Hr).
    apply face_body_raises in Hr as [[_ He] | (pts & Hp & Hs)]; [exact He|].
    destruct (Hcv face pts) as [pose Hpose]; [rewrite Heq; apply in_elt | exact Hp |].
    congruence.
Qed.

Lemma step_forgets_earlier_faces (g : Globals) (h w : Z) (fs : list Face) (last : Face) :
  Forall (fun f => exists v, body w h f = Ok v) fs ->
  step g (frame_of h w (fs ++ [last])) = step g (frame_of h w [last]).
Proof.
  intros Hall. unfold frame_step, frame_of.
  cbn [multi_face_landmarks frame_h frame_w faces_of].
  replace (truthy (Some (fs ++ [last]))) with true by (now destruct fs).
  cbn [truthy].
  now rewrite (face_loop_last _ _ _ w h fs last (loop_vars g) (loop_vars g) Hall).
Qed.

Lemma step_single_face (g : Globals) (h w : Z) (last : Face) :
  step g (frame_of h w [last]) =
  (v <- body w h last ;;
   r <- after_loop (gaze_sequence g) (Some v) ;;
   Ok (fst r, {| gaze_sequence := snd r; loop_vars := Some v |})).
Proof.
  unfold frame_step, frame_of.
  cbn [multi_face_landmarks frame_h frame_w faces_of truthy face_loop].
  now destruct (body w h last).
Qed.

(** A frame with faces raises in exactly two cases.  Either the loop body
    raises on some face, the bodies before it having returned: that is
    IndexError on a face with fewer than 292 landmarks and the error of
    the OpenCV call on a longer one.  Or every body returns, the last
    face turns the head past the threshold and has fewer than 474
    landmarks: that is IndexError. *)
Theorem frame_raises_exactly (g : Globals) (h w : Z) (fs : list Face) (last : Face)
        (e : exn) :
  (step g (frame_of h w (fs ++ [last])) = Raise e <->
   (exists pre face post,
       fs ++ [last] = pre ++ face :: post /\
       Forall (fun f => exists v, body w h f = Ok v) pre /\
       body w h face = Raise e) \/
   (Forall (fun f => exists v, body w h f = Ok v) fs /\
    exists v, body w h last = Ok v /\ head_test (yaw v) = true /\
              (length last <= 473)%nat /\ e = IndexError)) /\
  (forall face : Face,
      body w h face = Raise e <->
      ((length face <= 291)%nat /\ e = IndexError) \/
      (exists pts, image_points (to_pixels w h face) = Ok pts /\
                   solved_pose solvePnP Rodrigues RQDecomp3x3 pts (camera_matrix w h)
                   = Raise e)).
Proof.
  split; [|intros face; apply face_body_raises].
  unfold frame_step, frame_of.
  cbn [multi_face_landmarks frame_h frame_w faces_of].
  replace (truthy (Some (fs ++ [last]))) with true by (now destruct fs).
  destruct (loop w h (fs ++ [last]) (loop_vars g)) as [r|e'] eqn:El; cbn [bind].
  - pose proof (face_loop_all_return _ _ _ _ _ _ _ _ El) as Hall.
    apply Forall_app in Hall as [Hfs Hlast].
    inversion Hlast as [|? ? [v Hv] _]; subst.
    assert (Hr : r = Some v).
    { rewrite (face_loop_last _ _ _ w h fs last (loop_vars g) None Hfs) in El.
      cbn [face_loop] in El. rewrite Hv in El. cbn [bind] in El. congruence. }
    subst r. destruct (face_body_returns _ _ _ _ _ _ _ Hv) as [Hlm _].
    unfold after_loop. cbn [bind].
    assert (Hnone : ~ exists pre face post,
               fs ++ [last] = pre ++ face :: post /\
               Forall (fun f => exists v, body w h f = Ok v) pre /\
               body w h face = Raise e).
    { intros Hex. apply (face_loop_raises w h (fs ++ [last]) (loop_vars g) e) in Hex.
      congruence. }
    destruct (head_test (yaw v)) eqn:Eh.
    + destruct (le_lt_dec (length last) 473) as [Hs|Hlong].
      * rewrite avg_offset_raise by (rewrite Hlm, to_pixels_length; exact Hs).
        cbn [bind]. split.
        -- intros [= <-]. right. split; [exact Hfs|]. exists v. auto.
        -- intros [Hex | (_ & v' & _ & _ & _ & ->)]; [contradiction | reflexivity].
      * destruct (avg_offset_ok (landmarks v)) as [sample ->];
          [rewrite Hlm, to_pixels_length; lia|]. cbn [bind].
        destruct (detect_oscillation_total (store_sequence (gaze_sequence g) sample))
          as [-> | ->]; cbn [bind]; (split; [discriminate|]);
          (intros [Hex | (_ & v' & _ & _ & Hs & _)]; [contradiction | lia]).
    + cbn [bind]. split; [discriminate|].
      intros [Hex | (_ & v' & Hv' & Eh' & _)]; [contradiction | congruence].
  - split.
    + intros [= <-]. left. now apply (face_loop_raises w h (fs ++ [last]) (loop_vars g)).
    + intros [Hex | (Hfs & v & Hv & _)].
      * apply (face_loop_raises w h (fs ++ [last]) (loop_vars g) e) in Hex. congruence.
      * exfalso.
        rewrite (face_loop_last _ _ _ w h fs last (loop_vars g) None Hfs) in El.
        cbn [face_loop] in El. rewrite Hv in El. discriminate.
Qed.

(** ** Flags and console line of a frame *)

(** A frame ends with one of three flag pairs, (0,0), (1,0) or (1,1), and
    prints its console line exactly when [head_abnormal] is 1, with the
    two flags as they stand: a line never reads Head: 0. *)
Theorem flags_and_console_line (g : Globals) (f : Frame) (flags : Flags) (g' : Globals) :
  step g f = Ok (flags, g') ->
  ((head_abnormal flags, gaze_abnormal flags) = (0, 0) \/
   (head_abnormal flags, gaze_abnormal flags) = (1, 0) \/
   (head_abnormal flags, gaze_abnormal flags) = (1, 1)) /\
  printed flags =
    (if head_abnormal flags =? 1 then Some (1, gaze_abnormal flags) else None).
Proof.
  intros Hstep. apply frame_step_outcome in Hstep.
  destruct Hstep as [Ht | v Ht El Eh | v sample flag Ht El Eh Ea Ed];
    cbn [head_abnormal gaze_abnormal printed no_signal Z.eqb Pos.eqb]; auto.
  destruct (detect_oscillation_total (store_sequence (gaze_sequence g) sample))
    as [E|E]; rewrite E in Ed; injection Ed as <-; auto.
Qed.

(** ** Growth of the window *)

(** Across a frame the window never gets shorter and grows by one sample
    at most; once it holds [SEQUENCE_LENGTH] samples it holds that many
    after every later frame, so the cold start does not come back. *)
Theorem window_never_shrinks (g : Globals) (f : Frame) (flags : Flags) (g' : Globals) :
  step g f = Ok (flags, g') ->
  len (gaze_sequence g) <= len (gaze_sequence g') <= len (gaze_sequence g) + 1 /\
  (len (gaze_sequence g) = SEQUENCE_LENGTH ->
   len (gaze_sequence g') = SEQUENCE_LENGTH).
Proof.
  intros Hstep. destruct (step_window_change _ _ _ _ _ _ _ Hstep)
    as [[_ ->]|[_ [s ->]]]; [lia|].
  destruct (store_sequence_cases (gaze_sequence g) s) as [[Hlt ->]|(Hge & -> & Hne)];
    rewrite len_app; change (len [s]) with 1.
  - lia.
  - rewrite len_tl by exact Hne. lia.
Qed.

Lemma session_window_suffix (frames : list Frame) (flags : list Flags) (g' : Globals) :
  session initial frames = Ok (flags, g') ->
  exists samples : list Q,
    length samples = head_frames flags /\
    gaze_sequence g' = skipn (length samples - 6) samples.
Proof.
  intros Hrun.
  destruct (session_window _ _ _ frames initial flags g' Hrun) as (samples & Hw & Hn).
  exists samples. split; [exact Hn|].
  rewrite Hw. cbn [gaze_sequence initial]. now rewrite store_all_suffix by discriminate.
Qed.

Lemma session_window_len (frames : list Frame) (flags : list Flags) (g' : Globals) :
  session initial frames = Ok (flags, g') ->
  len (gaze_sequence g') = Z.min SEQUENCE_LENGTH (Z.of_nat (head_frames flags)).
Proof.
  intros Hrun. destruct (session_window_suffix _ _ _ Hrun) as (samples & Hn & ->).
  unfold len, SEQUENCE_LENGTH. rewrite length_skipn, <- Hn. lia.
Qed.

(** A frame that ends without an exception stores exactly its samples:
    one when it ends with [head_abnormal] = 1, none otherwise. *)
Lemma step_stores_frame_samples (g : Globals) (f : Frame) (flags : Flags) (g' : Globals) :
  step g f = Ok (flags, g') ->
  gaze_sequence g' =
    fold_left store_sequence (frame_samples solvePnP Rodrigues RQDecomp3x3 f)
              (gaze_sequence g) /\
  length (frame_samples solvePnP Rodrigues RQDecomp3x3 f) =
    length (filter (fun fl => head_abnormal fl =? 1) [flags]).
Proof.
  intros Hstep. apply frame_step_outcome in Hstep. unfold frame_samples.
  destruct Hstep as [Ht | v Ht El Eh | v sample flag Ht El Eh Ea Ed]; rewrite Ht.
  - split; reflexivity.
  - rewrite (face_loop_forgets _ _ _ _ _ _ None (loop_vars g) (truthy_faces _ Ht)).
    rewrite El, Eh. split; reflexivity.
  - rewrite (face_loop_forgets _ _ _ _ _ _ None (loop_vars g) (truthy_faces _ Ht)).
    rewrite El, Eh, Ea. split; reflexivity.
Qed.

Lemma session_stores_samples (frames : list Frame) : forall g flags g',
  session g frames = Ok (flags, g') ->
  gaze_sequence g' =
    fold_left store_sequence (session_samples solvePnP Rodrigues RQDecomp3x3 frames)
              (gaze_sequence g) /\
  length (session_samples solvePnP Rodrigues RQDecomp3x3 frames) = head_frames flags.
Proof.
  induction frames as [|f frames IH]; intros g flags g'; cbn [run].
  - intros [= <- <-]. split; reflexivity.
  - destruct (step g f) as [[fl g1]|e] eqn:Es; cbn [bind fst snd]; [|discriminate].
    destruct (session g1 frames) as [[fls g2]|e] eqn:Er; cbn [bind fst snd]; [|discriminate].
    intros [= <- <-]. destruct (IH _ _ _ Er) as [Hw Hn].
    destruct (step_stores_frame_samples _ _ _ _ Es) as [Hw1 Hn1].
    unfold session_samples in *. cbn [flat_map].
    rewrite fold_left_app, <- Hw1, <- Hw. split; [reflexivity|].
    rewrite length_app, Hn, Hn1. unfold head_frames. cbn [filter].
    destruct (head_abnormal fl =? 1); cbn [length]; lia.
Qed.

(** After a session started on the empty window, the window is the last
    six of the samples the frames of the session store, in the order of
    the frames: one sample, the gaze sample of the face processed last,
    for each frame that ended with [head_abnormal] = 1.  Its length is
    the smaller of 6 and the number of those frames. *)
Theorem window_counts_head_frames (frames : list Frame) (flags : list Flags) (g' : Globals) :
  session initial frames = Ok (flags, g') ->
  gaze_sequence g' =
    skipn (length (session_samples solvePnP Rodrigues RQDecomp3x3 frames) - 6)
          (session_samples solvePnP Rodrigues RQDecomp3x3 frames) /\
  length (session_samples solvePnP Rodrigues RQDecomp3x3 frames) = head_frames flags /\
  len (gaze_sequence g') = Z.min SEQUENCE_LENGTH (Z.of_nat (head_frames flags)).
Proof.
  intros Hrun. destruct (session_stores_samples _ _ _ _ Hrun) as [Hw Hn].
  split; [|split; [exact Hn|]].
  - rewrite Hw. cbn [gaze_sequence initial]. now rewrite store_all_suffix by discriminate.
  - exact (session_window_len _ _ _ Hrun).
Qed.

(** A frame can report [gaze_abnormal] = 1 only as the sixth or a later
    frame of its session to end with [head_abnormal] = 1. *)
Theorem gaze_flag_needs_six_head_frames
        (frames : list Frame) (flags : list Flags) (g : Globals)
        (f : Frame) (fl : Flags) (g' : Globals) :
  session initial frames = Ok (flags, g) ->
  step g f = Ok (fl, g') ->
  gaze_abnormal fl = 1 ->
  head_abnormal fl = 1 /\ (5 <= head_frames flags)%nat.
Proof.
  intros Hrun Hstep Hgaze. pose proof (session_window_len _ _ _ Hrun) as Hlen.
  apply frame_step_outcome in Hstep.
  destruct Hstep as [Ht | v Ht El Eh | v sample flag Ht El Eh Ea Ed];
    try (cbn in Hgaze; discriminate).
  cbn [gaze_abnormal] in Hgaze. subst flag. split; [reflexivity|].
  assert (Hfull : len (store_sequence (gaze_sequence g) sample) = SEQUENCE_LENGTH).
  { destruct (Z.eq_dec (len (store_sequence (gaze_sequence g) sample)) SEQUENCE_LENGTH)
      as [H|H]; [exact H|]. rewrite detect_short in Ed by exact H. discriminate. }
  destruct (store_sequence_cases (gaze_sequence g) sample) as [[Hlt Hs]|(Hge & Hs & Hne)];
    rewrite Hs, len_app in Hfull; change (len [sample]) with 1 in Hfull;
    unfold SEQUENCE_LENGTH in *; lia.
Qed.

End Further.

(** ** The capture loop (lines 156-159 and 279-282) *)

(** The escape test looks at the low byte of the key code only: it holds
    exactly for the codes congruent to 27 modulo 256, so for 27 with any
    modifier bits above it, and not for -1, the code without a key. *)
Theorem escape_low_byte :
  (forall key : Z, escape_pressed key = true <-> key mod 256 = 27) /\
  (forall high : Z, escape_pressed (27 + 256 * high) = true) /\
  escape_pressed (-1) = false.
Proof.
  assert (Hmask : forall key : Z, escape_pressed key = true <-> key mod 256 = 27).
  { intros key. unfold escape_pressed. rewrite Z.eqb_eq.
    change 255 with (Z.ones 8). rewrite Z.land_ones by lia. reflexivity. }
  split; [exact Hmask|]. split; [|reflexivity].
  intros high. apply Hmask.
  replace (27 + 256 * high) with (27 + high * 256) by lia.
  rewrite Z.mod_add by lia. reflexivity.
Qed.

Lemma processed_cut (pre : list Tick) (t : Tick) (post : list Tick) :
  ret t = false \/ escape_pressed (key t) = true ->
  processed (pre ++ t :: post) = processed (pre ++ [t]).
Proof.
  intros Hstop. induction pre as [|p pre IH]; cbn [app processed].
  - destruct Hstop as [-> | ->]; cbn [negb]; [reflexivity|].
    now destruct (negb (ret t)).
  - now rewrite IH.
Qed.

Section Capture.

Variable solvePnP :
  ndarray -> ndarray -> ndarray -> ndarray -> option (bool * ndarray * ndarray).
Variable Rodrigues : ndarray -> option ndarray.
Variable RQDecomp3x3 : ndarray -> option (Q * Q * Q).

Local Notation step := (frame_step solvePnP Rodrigues RQDecomp3x3).
Local Notation session := (run solvePnP Rodrigues RQDecomp3x3).
Local Notation capture_loop := (main_loop solvePnP Rodrigues RQDecomp3x3).
Local Notation drawn := (frame_overlay solvePnP Rodrigues RQDecomp3x3).

Lemma main_loop_session (ticks : list Tick) : forall g : Globals,
  capture_loop g ticks = session g (map frame (processed ticks)).
Proof.
  induction ticks as [|t ticks IH]; intros g; cbn [main_loop processed].
  - reflexivity.
  - destruct (negb (ret t)); [reflexivity|].
    destruct (escape_pressed (key t)); cbn [map run].
    + now destruct (step g (frame t)) as [[fl g1]|e].
    + destruct (step g (frame t)) as [[fl g1]|e]; cbn [bind fst snd]; [|reflexivity].
      now rewrite IH.
Qed.

(** The loop is the session of the frames read up to the first failed
    read, that one left out, or up to the first escape key, that frame
    still processed; whatever the camera and the keyboard deliver after
    the stop changes nothing, and a failed first read leaves the state
    as it was. *)
Theorem capture_loop_stops (g : Globals) :
  (forall ticks : list Tick,
      capture_loop g ticks = session g (map frame (processed ticks))) /\
  (forall (pre : list Tick) (t : Tick) (post : list Tick),
      ret t = false \/ escape_pressed (key t) = true ->
      capture_loop g (pre ++ t :: post) = capture_loop g (pre ++ [t])) /\
  (forall (t : Tick) (post : list Tick),
      ret t = false -> capture_loop g (t :: post) = Ok ([], g)) /\
  (forall (t : Tick) (post : list Tick),
      ret t = true -> escape_pressed (key t) = true ->
      capture_loop g (t :: post) = session g [frame t]).
Proof.
  split; [|split; [|split]].
  - intros ticks. apply main_loop_session.
  - intros pre t post Hstop. rewrite !main_loop_session.
    now rewrite (processed_cut pre t post Hstop).
  - intros t post Hret. cbn [main_loop]. now rewrite Hret.
  - intros t post Hret Hesc. rewrite main_loop_session. cbn [processed].
    now rewrite Hret, Hesc.
Qed.

(** ** The overlay (lines 240-242 and 264-274) *)

Lemma head_test_shown_angle (y : Q) :
  head_test y = true -> 10 <= Z.abs (py_int y).
Proof.
  unfold head_test. rewrite Qltb_lt. destruct y as [n d].
  unfold Qlt, Qabs, py_int. cbn [Qnum Qden]. intros Hlt.
  rewrite <- Z.quot_abs by lia.
  change (Z.abs (Zpos d)) with (Zpos d).
  rewrite Z.quot_div_nonneg by lia.
  apply Z.div_le_lower_bound; lia.
Qed.

(** A frame draws on the image only when it ends with [head_abnormal] =
    1.  It then draws the two iris dots on the iris landmarks and three
    lines of text: the angle, whose integer part is 10 or more either
    way, "Head Abnormal: 1", always in red, and the gaze flag, red when
    it is 1 and green when it is 0.  A frame that ends with
    [head_abnormal] = 0 draws nothing. *)
Theorem overlay_only_on_abnormal_head
        (g : Globals) (f : Frame) (flags : Flags) (g' : Globals) :
  step g f = Ok (flags, g') ->
  (head_abnormal flags = 0 -> drawn g f = Ok []) /\
  (head_abnormal flags = 1 ->
   exists (v : LoopVars) (left_iris right_iris : Point),
     loop_vars g' = Some v /\
     getitem (landmarks v) 468 = Ok left_iris /\
     getitem (landmarks v) 473 = Ok right_iris /\
     10 <= Z.abs (py_int (yaw v)) /\
     drawn g f =
     Ok [ circle left_iris 4 (0, 255, 0) (-1);
          circle right_iris 4 (0, 255, 0) (-1);
          putText ("Head Angle: " ++ str (py_int (yaw v))) (30, 40)
                  FONT_HERSHEY_SIMPLEX (7 # 10) (255, 255, 0) 2;
          putText "Head Abnormal: 1" (30, 80)
                  FONT_HERSHEY_SIMPLEX (7 # 10) (0, 0, 255) 2;
          putText ("Gaze Abnormal: " ++ str (gaze_abnormal flags)) (30, 120)
                  FONT_HERSHEY_SIMPLEX (7 # 10)
                  (if gaze_abnormal flags =? 1 then (0, 0, 255) else (0, 255, 0)) 2 ]).
Proof.
  intros Hstep. apply frame_step_outcome in Hstep.
  destruct Hstep as [Ht | v Ht El Eh | v sample flag Ht El Eh Ea Ed];
    cbn [head_abnormal gaze_abnormal no_signal loop_vars]; unfold frame_overlay;
    rewrite Ht.
  - split; [reflexivity | discriminate].
  - split; [|discriminate]. intros _. rewrite El. cbn [bind]. unfold overlay.
    cbn [bind]. now rewrite Eh.
  - split; [discriminate|]. intros _. rewrite El. cbn [bind]. unfold overlay.
    cbn [bind]. rewrite Eh.
    assert (Hreads : exists li ri, getitem (landmarks v) 468 = Ok li /\
                                   getitem (landmarks v) 473 = Ok ri).
    { unfold avg_offset in Ea.
      destruct (getitem (landmarks v) 468) as [li|e]; cbn [bind] in Ea; [|discriminate].
      destruct (getitem (landmarks v) 473) as [ri|e]; cbn [bind] in Ea; [|discriminate].
      eauto. }
    destruct Hreads as (li & ri & Hli & Hri).
    exists v, li, ri. rewrite Hli, Hri. cbn [bind]. rewrite Ea. cbn [bind].
    rewrite Ed. cbn [bind].
    split; [reflexivity|]. split; [reflexivity|]. split; [reflexivity|].
    split; [now apply head_test_shown_angle|].
    destruct (detect_oscillation_total (store_sequence (gaze_sequence g) sample))
      as [E|E]; rewrite E in Ed; injection Ed as <-; reflexivity.
Qed.

End Capture.

(** ** What a frame remembers *)

(** The gaze window is the whole memory of the loop.  Two states with the
    same window give every frame the same flags, the same console line
    and the same new window, or the same exception: the names left bound
    by earlier frames are rebound before they are read. *)
Theorem only_the_window_is_remembered
        (solvePnP : ndarray -> ndarray -> ndarray -> ndarray ->
                    option (bool * ndarray * ndarray))
        (Rodrigues : ndarray -> option ndarray)
        (RQDecomp3x3 : ndarray -> option (Q * Q * Q))
        (g1 g2 : Globals) (f : Frame) :
  gaze_sequence g1 = gaze_sequence g2 ->
  observe (frame_step solvePnP Rodrigues RQDecomp3x3 g1 f) =
  observe (frame_step solvePnP Rodrigues RQDecomp3x3 g2 f).
Proof.
  intros Hw. apply frame_step_same; [|exact Hw]. reflexivity.
Qed.

(** * Concrete runs of the further properties *)

Lemma to_pixels_in_frame_witness :
  Forall (in_frame 640 480) (to_pixels 640 480 [at_pixel 100 50; at_pixel 640 480]).
Proof.
  apply (to_pixels_in_frame 640 480 [at_pixel 100 50; at_pixel 640 480]).
  - lia.
  - lia.
  - repeat constructor; vm_compute; discriminate.
Defined.

Lemma midpoint_between_witness : midpoint 3 4 = (3 + 4) / 2.
Proof.
  apply (proj2 (proj2 (proj2 (midpoint_between 3 4)))). lia.
Defined.

Lemma avg_offset_ignores_ordinates_witness :
  avg_offset (to_pixels 640 480 (toy_face 0 3 5)) =
  avg_offset (map (fun p => (fst p, 0)) (to_pixels 640 480 (toy_face 0 3 5))).
Proof.
  apply avg_offset_ignores_ordinates. vm_compute. reflexivity.
Defined.

Lemma avg_offset_shift_invariant_witness :
  avg_offset (shift_right (-100) (to_pixels 640 480 (toy_face 0 3 5))) =
  avg_offset (to_pixels 640 480 (toy_face 0 3 5)).
Proof.
  apply avg_offset_shift_invariant.
  apply Forall_forall. intros p Hp.
  assert (Hall : forallb (fun p => (0 <=? fst p) && (0 <=? fst p + -100))
                         (to_pixels 640 480 (toy_face 0 3 5)) = true)
    by (vm_compute; reflexivity).
  rewrite forallb_forall in Hall. specialize (Hall p Hp).
  apply andb_true_iff in Hall as [H1 H2].
  split; now apply Z.leb_le.
Defined.

Lemma landmark_reads_exact_witness :
  (exists sample, avg_offset (to_pixels 640 480 (toy_face 0 3 5)) = Ok sample) /\
  avg_offset (to_pixels 640 480 (short_face 0)) = Raise IndexError.
Proof.
  split.
  - apply (landmark_reads_exact (to_pixels 640 480 (toy_face 0 3 5))).
    vm_compute. lia.
  - apply (landmark_reads_exact (to_pixels 640 480 (short_face 0))).
    vm_compute. lia.
Defined.


Lemma detect_oscillation_permutation_witness :
  detect_oscillation [-8; 8; 8; 8; 8; 8]%Q = detect_oscillation [8; 8; 8; 8; 8; -8]%Q.
Proof.
  apply detect_oscillation_permutation.
  apply (Permutation_cons_append [8; 8; 8; 8; 8]%Q (-8)%Q).
Defined.

Lemma one_sided_drift_not_flagged_witness :
  detect_oscillation [100; 200; 300; 400; 500; 600]%Q = Ok 0.
Proof.
  apply one_sided_drift_not_flagged. left. intros x Hx. cbn [In] in Hx.
  repeat (destruct Hx as [<-|Hx]; [vm_compute; discriminate|]). destruct Hx.
Defined.

Lemma amplified_window_stays_flagged_witness :
  detect_oscillation (map (Qmult 2) [7; -7; 7; -7; 7; -7]%Q) = Ok 1.
Proof.
  apply amplified_window_stays_flagged.
  - vm_compute. discriminate.
  - reflexivity.
Defined.

Lemma head_flag_symmetric_monotone_witness :
  head_flag 10 = 0 /\ head_flag (-10) = 0 /\ head_flag 3 <= head_flag (-20).
Proof.
  destruct head_flag_symmetric_monotone as (_ & Hmono & Hdead).
  split; [|split].
  - apply Hdead. split; vm_compute; discriminate.
  - apply Hdead. split; vm_compute; discriminate.
  - apply Hmono. vm_compute. discriminate.
Defined.

Lemma frame_raises_only_IndexError_witness :
  exists e,
    frame_step (toy_solvePnP true) toy_Rodrigues toy_RQDecomp3x3
      five_samples (toy_frame (Some [short_face 25])) = Raise e /\
    e = IndexError.
Proof.
  destruct (frame_step (toy_solvePnP true) toy_Rodrigues toy_RQDecomp3x3
              five_samples (toy_frame (Some [short_face 25]))) as [r|e] eqn:E;
    [vm_compute in E; discriminate|].
  exists e. split; [reflexivity|].
  apply (proj2 (frame_raises_only_IndexError _ _ _ _ _ _ E)).
  intros face pts _ _. eexists. reflexivity.
Defined.

Lemma frame_raises_exactly_witness :
  frame_step (toy_solvePnP true) toy_Rodrigues toy_RQDecomp3x3
    five_samples (frame_of 480 640 ([toy_face 0 0 0] ++ [short_face 25])) =
  Raise IndexError /\
  frame_step strict_solvePnP toy_Rodrigues toy_RQDecomp3x3
    five_samples (frame_of 480 640 ([toy_face 25 0 0] ++ [[]])) =
  Raise cv2_error.
Proof.
  split.
  - apply (proj1 (frame_raises_exactly (toy_solvePnP true) toy_Rodrigues toy_RQDecomp3x3
                    five_samples 480 640 [toy_face 0 0 0] (short_face 25) IndexError)).
    right. split.
    + constructor; [|constructor].
      destruct (face_body (toy_solvePnP true) toy_Rodrigues toy_RQDecomp3x3
                  640 480 (toy_face 0 0 0)) as [v|e] eqn:E;
        [eauto | vm_compute in E; discriminate].
    + destruct (face_body (toy_solvePnP true) toy_Rodrigues toy_RQDecomp3x3
                  640 480 (short_face 25)) as [v|e] eqn:E;
        [|vm_compute in E; discriminate].
      exists v. split; [reflexivity|].
      vm_compute in E. injection E as <-. split; [reflexivity|].
      split; [vm_compute; lia | reflexivity].
  - apply (proj1 (frame_raises_exactly strict_solvePnP toy_Rodrigues toy_RQDecomp3x3
                    five_samples 480 640 [toy_face 25 0 0] [] cv2_error)).
    left. exists [], (toy_face 25 0 0), [[]].
    split; [reflexivity|]. split; [constructor|]. vm_compute. reflexivity.
Defined.

Lemma frame_step_total_witness :
  exists flags g',
    frame_step (toy_solvePnP true) toy_Rodrigues toy_RQDecomp3x3
      five_samples (turned (-8)) = Ok (flags, g').
Proof.
  apply frame_step_total.
  - cbn [turned toy_frame multi_face_landmarks faces_of].
    constructor; [|constructor]. unfold gaze_ready. vm_compute. lia.
  - intros face pts _ _. eexists. reflexivity.
Defined.

Lemma flags_and_console_line_witness :
  exists flags g',
    frame_step (toy_solvePnP true) toy_Rodrigues toy_RQDecomp3x3
      five_samples (turned (-8)) = Ok (flags, g') /\
    printed flags =
      (if head_abnormal flags =? 1 then Some (1, gaze_abnormal flags) else None).
Proof.
  destruct (frame_step (toy_solvePnP true) toy_Rodrigues toy_RQDecomp3x3
              five_samples (turned (-8))) as [[flags g']|e] eqn:E;
    [|vm_compute in E; discriminate].
  exists flags, g'. split; [reflexivity|].
  exact (proj2 (flags_and_console_line _ _ _ _ _ _ _ E)).
Defined.

Lemma window_never_shrinks_witness :
  exists flags g',
    frame_step (toy_solvePnP true) toy_Rodrigues toy_RQDecomp3x3
      five_samples (turned (-8)) = Ok (flags, g') /\
    len (gaze_sequence five_samples) <= len (gaze_sequence g').
Proof.
  destruct (frame_step (toy_solvePnP true) toy_Rodrigues toy_RQDecomp3x3
              five_samples (turned (-8))) as [[flags g']|e] eqn:E;
    [|vm_compute in E; discriminate].
  exists flags, g'. split; [reflexivity|].
  exact (proj1 (proj1 (window_never_shrinks _ _ _ _ _ _ _ E))).
Defined.

Lemma window_counts_head_frames_witness :
  exists flags g',
    run (toy_solvePnP true) toy_Rodrigues toy_RQDecomp3x3
      initial interrupted_session = Ok (flags, g') /\
    session_samples (toy_solvePnP true) toy_Rodrigues toy_RQDecomp3x3
      interrupted_session = [16 # 2; -16 # 2; 16 # 2; -16 # 2; 16 # 2; -16 # 2]%Q /\
    gaze_sequence g' =
      skipn (length (session_samples (toy_solvePnP true) toy_Rodrigues toy_RQDecomp3x3
                       interrupted_session) - 6)
            (session_samples (toy_solvePnP true) toy_Rodrigues toy_RQDecomp3x3
               interrupted_session) /\
    len (gaze_sequence g') = Z.min SEQUENCE_LENGTH (Z.of_nat (head_frames flags)).
Proof.
  destruct (run (toy_solvePnP true) toy_Rodrigues toy_RQDecomp3x3
              initial interrupted_session) as [[flags g']|e] eqn:E;
    [|vm_compute in E; discriminate].
  destruct (window_counts_head_frames _ _ _ _ _ _ E) as (Hw & _ & Hl).
  exists flags, g'. split; [reflexivity|]. split; [vm_compute; reflexivity|].
  split; assumption.
Defined.

Lemma gaze_flag_needs_six_head_frames_witness :
  exists flags g fl g',
    run (toy_solvePnP true) toy_Rodrigues toy_RQDecomp3x3
      initial (removelast interrupted_session) = Ok (flags, g) /\
    frame_step (toy_solvePnP true) toy_Rodrigues toy_RQDecomp3x3
      g (turned (-8)) = Ok (fl, g') /\
    gaze_abnormal fl = 1 /\ (5 <= head_frames flags)%nat.
Proof.
  destruct (run (toy_solvePnP true) toy_Rodrigues toy_RQDecomp3x3
              initial (removelast interrupted_session)) as [[flags g]|e] eqn:E;
    [|vm_compute in E; discriminate].
  destruct (frame_step (toy_solvePnP true) toy_Rodrigues toy_RQDecomp3x3
              g (turned (-8))) as [[fl g']|e] eqn:E';
    [|vm_compute in E; injection E as _ <-; vm_compute in E'; discriminate].
  assert (Hg : gaze_abnormal fl = 1).
  { vm_compute in E. injection E as _ <-. vm_compute in E'.
    injection E' as <- _. reflexivity. }
  exists flags, g, fl, g'. split; [reflexivity|]. split; [exact E'|].
  split; [exact Hg|].
  exact (proj2 (gaze_flag_needs_six_head_frames _ _ _ _ _ _ _ _ _ E E' Hg)).
Defined.

Lemma capture_loop_stops_witness :
  main_loop (toy_solvePnP true) toy_Rodrigues toy_RQDecomp3x3 initial capture =
  main_loop (toy_solvePnP true) toy_Rodrigues toy_RQDecomp3x3 initial
    (firstn 3 capture).
Proof.
  apply (proj1 (proj2 (capture_loop_stops (toy_solvePnP true) toy_Rodrigues
                         toy_RQDecomp3x3 initial))
           (firstn 2 capture)
           {| ret := true; frame := straight 0; key := 27 + 256 |}
           [ {| ret := true; frame := turned 8; key := -1 |} ]).
  right. reflexivity.
Defined.

Lemma overlay_only_on_abnormal_head_witness :
  frame_overlay (toy_solvePnP true) toy_Rodrigues toy_RQDecomp3x3
    five_samples (straight (-8)) = Ok [].
Proof.
  destruct (frame_step (toy_solvePnP true) toy_Rodrigues toy_RQDecomp3x3
              five_samples (straight (-8))) as [[flags g']|e] eqn:E;
    [|vm_compute in E; discriminate].
  apply (proj1 (overlay_only_on_abnormal_head _ _ _ _ _ _ _ E)).
  vm_compute in E. injection E as <- _. reflexivity.
Defined.

Lemma only_the_window_is_remembered_witness :
  observe (frame_step (toy_solvePnP true) toy_Rodrigues toy_RQDecomp3x3
             initial (turned 8)) =
  observe (frame_step (toy_solvePnP true) toy_Rodrigues toy_RQDecomp3x3
             {| gaze_sequence := [];
                loop_vars := Some {| landmarks := []; success := false;
                                     pitch := 0; yaw := 90; roll := 0 |} |}
             (turned 8)).
Proof.
  apply only_the_window_is_remembered. reflexivity.
Defined.
